(** * cadquery.occ_impl.assembly: the [Color] wrapper and the [toCAF] converter

    A shallow embedding of [cadquery/occ_impl/assembly.py].  The module is a
    thin layer over the OCCT kernel (reached through the OCP bindings), so the
    kernel objects the code touches are modelled by an in-memory stand-in:
    a colour is the record of the four channels the kernel stores, and a
    document is a counter of labels together with the attributes the labels
    carry. *)

From Stdlib Require Import Floats ZArith.
From stdpp Require Import gmap strings list.

Open Scope string_scope.
Open Scope list_scope.

(** ** Python values, exceptions and results *)

(** The values that can reach [Color.__init__] through [*args] and
    [**kwargs]. *)
Inductive PyVal :=
| PyNone
| PyInt (z : Z)
| PyFloat (f : float)
| PyStr (s : string).

(** Python truth value testing: [None], zero of either numeric type and the
    empty string are false.  A float is false exactly when it compares equal
    to zero, so both signed zeros are false and a NaN is true. *)
Definition truthy (v : PyVal) : bool :=
  match v with
  | PyNone => false
  | PyInt z => negb (z =? 0)%Z
  | PyFloat f => negb (f =? 0)%float
  | PyStr s => negb (String.eqb s "")
  end.

(** [kwargs.get(key)]: the value, or [None] when the key is absent. *)
Definition kwargs_get (kwargs : gmap string PyVal) (key : string) : PyVal :=
  default PyNone (kwargs !! key).

(** The two f-string messages of the module, kept structured: the text of
    [{args}] and [{kwargs}] is Python's [repr] of the values. *)
Inductive message :=
| Unknown_color_name (arg : PyVal)
| Unsupported_arguments (args : list PyVal) (kwargs : gmap string PyVal).

(** The exceptions of the module, of the binding ([TypeError] for an argument
    it cannot convert) and of the kernel ([Standard_OutOfRange],
    [Standard_NullObject]). *)
Inductive exn :=
| ValueError (msg : message)
| TypeError
| KeyError (key : string)
| Standard_OutOfRange
| Standard_NullObject.

(** Outcome of running a piece of the module: a value, a raised exception,
    [Diverge] when the fuel given to the one [while] loop runs out, or
    [Crash] when the kernel brings the process down. *)
Inductive result (A : Type) :=
| Ok (a : A)
| Raise (e : exn)
| Diverge
| Crash.
Arguments Ok {A} a.
Arguments Raise {A} e.
Arguments Diverge {A}.
Arguments Crash {A}.

Definition rbind {A B} (r : result A) (k : A -> result B) : result B :=
  match r with
  | Ok a => k a
  | Raise e => Raise e
  | Diverge => Diverge
  | Crash => Crash
  end.

Notation "'do' x <- r ; k" := (rbind r (fun x => k))
  (at level 10, x pattern, r at level 100, k at level 200).

(** The error names of the specification, read on the exceptions the code
    raises: both are [ValueError]s, told apart by their message. *)
Definition UnknownColorError (e : exn) : Prop :=
  exists arg, e = ValueError (Unknown_color_name arg).


(** ** The kernel colour object *)

(** [Quantity_ColorRGBA]: the four channels as the kernel stores them, in
    single precision; a field holds the double that reads back. *)
Record Quantity_ColorRGBA := RGBA {
  Red : float;
  Green : float;
  Blue : float;
  Alpha : float
}.

(** Narrowing of a double to single precision (binary32: 24 bits of
    precision, exponents below 128), rounding to nearest even; beyond the
    range it gives an infinity, below it a zero. *)
Definition to_binary32 (x : float) : float :=
  match Prim2SF x with
  | S754_finite s m e =>
      SF2Prim (binary_normalize 24 128 (if s then Z.neg m else Z.pos m) e s)
  | _ => x
  end.

(** Argument conversion of the binding for a real parameter: a Python float
    as it is, a Python integer rounded to the nearest double, and a
    [TypeError] for an integer beyond the doubles and for anything else. *)
Definition as_real (v : PyVal) : result float :=
  match v with
  | PyFloat f => Ok f
  | PyInt z =>
      match binary_normalize prec emax z 0 false with
      | S754_infinity _ => Raise TypeError
      | sf => Ok (SF2Prim sf)
      end
  | _ => Raise TypeError
  end.

(** The kernel's check of the three colour channels: each within [0, 1]. *)
Definition Quantity_ColorValidateRgbRange (r g b : float) : bool :=
  negb ((r <? 0) || (1 <? r) || (g <? 0) || (1 <? g) || (b <? 0) || (1 <? b))%float.

(** [Quantity_ColorRGBA(r, g, b, a)]: the binding converts the four
    arguments to single precision, then the kernel checks the range of the
    colour channels (not of the alpha) and stores them. *)
Definition Quantity_ColorRGBA_new (r g b a : PyVal) : result Quantity_ColorRGBA :=
  do r' <- as_real r;
  do g' <- as_real g;
  do b' <- as_real b;
  do a' <- as_real a;
  if Quantity_ColorValidateRgbRange (to_binary32 r') (to_binary32 g') (to_binary32 b')
  then Ok (RGBA (to_binary32 r') (to_binary32 g') (to_binary32 b') (to_binary32 a'))
  else Raise Standard_OutOfRange.

(** [c.SetAlpha(a)]: stores the alpha in single precision, unchecked. *)
Definition SetAlpha (c : Quantity_ColorRGBA) (a : PyVal) : result Quantity_ColorRGBA :=
  do a' <- as_real a;
  Ok (RGBA (Red c) (Green c) (Blue c) (to_binary32 a')).

(** ** class Color *)

Record Color := mkColor { Color_wrapped : Quantity_ColorRGBA }.

Section ColorClass.

(** The kernel's table of named colours and the value of a
    default-constructed [Quantity_ColorRGBA()]. *)
Variable palette : string -> option Quantity_ColorRGBA.
Variable default_rgba : Quantity_ColorRGBA.

(** [Quantity_ColorRGBA.ColorFromName_s(name, out)]: returns whether the
    name is known together with the out-parameter, overwritten on
    success.  [None] reaches the kernel as a null string, which it refuses;
    other values are refused by the binding. *)
Definition ColorFromName_s (name : PyVal) (out : Quantity_ColorRGBA)
  : result (bool * Quantity_ColorRGBA) :=
  match name with
  | PyStr s =>
      match palette s with
      | Some c => Ok (true, c)
      | None => Ok (false, out)
      end
  | PyNone => Raise Standard_NullObject
  | _ => Raise TypeError
  end.

(** [Color.__init__(self, *args, **kwargs)]; the result is the constructed
    object.  The list patterns are the tests on [len(args)] followed by
    the tuple unpacking of that branch. *)
Definition Color_init (args : list PyVal) (kwargs : gmap string PyVal)
  : result Color :=
  match args with
  | [name] =>
      let wrapped := default_rgba in
      do (found, wrapped) <- ColorFromName_s name wrapped;
      if negb found
      then Raise (ValueError (Unknown_color_name name))
      else Ok (mkColor wrapped)
  | [r; g; b] =>
      do wrapped <- Quantity_ColorRGBA_new r g b (PyInt 1);
      if truthy (kwargs_get kwargs "a")
      then do wrapped <- SetAlpha wrapped (kwargs_get kwargs "a");
           Ok (mkColor wrapped)
      else Ok (mkColor wrapped)
  | [r; g; b; a] =>
      do wrapped <- Quantity_ColorRGBA_new r g b a;
      Ok (mkColor wrapped)
  | _ => Raise (ValueError (Unsupported_arguments args kwargs))
  end.

End ColorClass.

(** ** The assembly tree and the kernel document *)

(** Python object references and kernel labels are both numbered. *)
Abbreviation ref := nat.
Abbreviation TDF_Label := nat.

(** What the kernel builds on its own: the empty compound a fresh label
    holds, and the compound [UpdateAssemblies] rebuilds for an assembly label
    from the components and the shapes of the document. *)
Class ShapeKernel (TopLoc_Location TopoDS_Shape : Type) := {
  TopoDS_Compound_new : TopoDS_Shape;
  rebuilt_compound :
    list (TDF_Label * TDF_Label * TopLoc_Location) ->
    gmap nat TopoDS_Shape -> TDF_Label -> TopoDS_Shape
}.

Section Converter.

(** Kernel types the module only passes around: a placement, a kernel shape
    and a cadquery [Shape]; [TopLoc_Location()] is the identity placement
    and [Compound.makeCompound] comes from [.shapes]. *)
Context {TopLoc_Location TopoDS_Shape Shape : Type}.
Context `{!ShapeKernel TopLoc_Location TopoDS_Shape}.
Variable TopLoc_Location_new : TopLoc_Location.

Record Location := mkLocation { Location_wrapped : TopLoc_Location }.
Record Compound := mkCompound { Compound_wrapped : TopoDS_Shape }.

Variable makeCompound : list Shape -> Compound.

(** [AssemblyProtocol], together with the [parent] attribute that [toCAF]
    reads.  [children] and [parent] hold references into the object store;
    [traverse] is the sequence the method yields. *)
Record AssemblyProtocol := mkAssembly {
  loc : Location;
  name : string;
  color : option Color;
  shapes : list Shape;
  children : list ref;
  parent : option ref;
  traverse : list (string * ref)
}.

(** [TDocStd_Document] with its shape and colour tools: the number of
    labels handed out by [NewShape], the name, shape and surface colour a
    label carries, and the components added, oldest first.  Automatic naming
    is switched off by [toCAF], so a label has a name only when one is
    set. *)
Record TDocStd_Document := mkDocument {
  doc_format : string;
  doc_labels : nat;
  doc_names : gmap nat string;
  doc_shapes : gmap nat TopoDS_Shape;
  doc_components : list (TDF_Label * TDF_Label * TopLoc_Location);
  doc_colors : gmap nat Quantity_ColorRGBA;
  doc_updated : bool
}.

Definition TDocStd_Document_new (format : string) : TDocStd_Document :=
  mkDocument format 0 ∅ ∅ [] ∅ false.

(** [tool.NewShape()]: a fresh label, holding an empty compound. *)
Definition NewShape (d : TDocStd_Document) : TDF_Label * TDocStd_Document :=
  (doc_labels d,
   mkDocument (doc_format d) (S (doc_labels d)) (doc_names d)
     (<[doc_labels d := TopoDS_Compound_new]> (doc_shapes d))
     (doc_components d) (doc_colors d) (doc_updated d)).

(** [tool.SetShape(l, s)]. *)
Definition SetShape (l : TDF_Label) (s : TopoDS_Shape) (d : TDocStd_Document)
  : TDocStd_Document :=
  mkDocument (doc_format d) (doc_labels d) (doc_names d) (<[l := s]> (doc_shapes d))
    (doc_components d) (doc_colors d) (doc_updated d).

(** [TDataStd_Name.Set_s(l, TCollection_ExtendedString(name))]. *)
Definition TDataStd_Name_Set_s (l : TDF_Label) (n : string) (d : TDocStd_Document)
  : TDocStd_Document :=
  mkDocument (doc_format d) (doc_labels d) (<[l := n]> (doc_names d)) (doc_shapes d)
    (doc_components d) (doc_colors d) (doc_updated d).

(** [tool.AddComponent(assembly, component, placement)]. *)
Definition AddComponent (a c : TDF_Label) (p : TopLoc_Location) (d : TDocStd_Document)
  : TDocStd_Document :=
  mkDocument (doc_format d) (doc_labels d) (doc_names d) (doc_shapes d)
    (doc_components d ++ [(a, c, p)]) (doc_colors d) (doc_updated d).

(** [ctool.SetColor(l, c, XCAFDoc_ColorSurf)]. *)
Definition SetColor (l : TDF_Label) (c : Quantity_ColorRGBA) (d : TDocStd_Document)
  : TDocStd_Document :=
  mkDocument (doc_format d) (doc_labels d) (doc_names d) (doc_shapes d)
    (doc_components d) (<[l := c]> (doc_colors d)) (doc_updated d).

(** The labels that the components of [l] refer to. *)
Definition component_refs
    (comps : list (TDF_Label * TDF_Label * TopLoc_Location)) (l : TDF_Label)
  : list TDF_Label :=
  (fun c => c.1.2) <$> filter (fun c => c.1.1 = l) comps.

(** The free labels: those no component refers to. *)
Definition free_labels (d : TDocStd_Document) : list TDF_Label :=
  filter (fun l => l ∉ (fun c => c.1.2) <$> doc_components d) (seq 0 (doc_labels d)).

(** The kernel's descent from a label through its components, each visited
    through the label it refers to; [false] when it is still descending
    after [fuel] levels. *)
Fixpoint updateComponent (fuel : nat)
    (comps : list (TDF_Label * TDF_Label * TopLoc_Location)) (l : TDF_Label)
  : bool :=
  match fuel with
  | O => false
  | S fuel' => forallb (updateComponent fuel' comps) (component_refs comps l)
  end.

(** The document [UpdateAssemblies] leaves when it returns: every label that
    has components holds the compound rebuilt for it. *)
Definition rebuild_assemblies (d : TDocStd_Document) : TDocStd_Document :=
  mkDocument (doc_format d) (doc_labels d) (doc_names d)
    (map_imap
       (fun l s =>
          Some (match component_refs (doc_components d) l with
                | [] => s
                | _ => rebuilt_compound (doc_components d) (doc_shapes d) l
                end))
       (doc_shapes d))
    (doc_components d) (doc_colors d) true.

(** [tool.UpdateAssemblies()]: the kernel descends from every free label.  A
    descent deeper than there are labels has met a label twice and never
    ends: the kernel overruns its stack and the process dies. *)
Definition UpdateAssemblies (d : TDocStd_Document) : result TDocStd_Document :=
  if forallb (updateComponent (S (doc_labels d)) (doc_components d)) (free_labels d)
  then Ok (rebuild_assemblies d)
  else Crash.

(** ** setName, setColor *)

Definition setName (l : TDF_Label) (n : string) (d : TDocStd_Document) :=
  TDataStd_Name_Set_s l n d.

Definition setColor (l : TDF_Label) (c : Color) (d : TDocStd_Document) :=
  SetColor l (Color_wrapped c) d.

(** ** toCAF *)

(** The object store: what each reference points to. *)
Variable objs : ref -> AssemblyProtocol.

(** [while not color and tmp.parent: tmp = tmp.parent; color = tmp.color],
    returning the final [color].  A [Color] object and an assembly object
    are always true, so both tests are tests against [None]. *)
Fixpoint inherit_color (fuel : nat) (color0 : option Color) (tmp : ref)
  : result (option Color) :=
  match color0, parent (objs tmp) with
  | None, Some p =>
      match fuel with
      | O => Diverge
      | S fuel' => inherit_color fuel' (color (objs p)) p
      end
  | _, _ => Ok color0
  end.

(** [for ch in v.children: tool.AddComponent(subassy, subassys[ch.name][0],
    subassys[ch.name][1].wrapped)]; a missing key raises [KeyError]. *)
Fixpoint add_children (subassy : TDF_Label)
    (subassys : gmap string (TDF_Label * Location))
    (chs : list ref) (d : TDocStd_Document) : result TDocStd_Document :=
  match chs with
  | [] => Ok d
  | ch :: chs' =>
      match subassys !! name (objs ch) with
      | None => Raise (KeyError (name (objs ch)))
      | Some entry =>
          add_children subassy subassys chs'
            (AddComponent subassy entry.1 (Location_wrapped entry.2) d)
      end
  end.

(** The body of [for k, v in assy.traverse()]. *)
Definition toCAF_body (coloredSTEP : bool) (fuel : nat) (k : string) (v : ref)
    (subassys : gmap string (TDF_Label * Location)) (d : TDocStd_Document)
  : result (gmap string (TDF_Label * Location) * TDocStd_Document) :=
  (* leaf part *)
  let '(lab, d) := NewShape d in
  let d := SetShape lab (Compound_wrapped (makeCompound (shapes (objs v)))) d in
  let d := setName lab (k +:+ "_part") d in
  (* assy part *)
  let '(subassy, d) := NewShape d in
  let d := AddComponent subassy lab TopLoc_Location_new d in
  let d := setName subassy k d in
  (* handle colors *)
  do d <-
    (if coloredSTEP
     then do c <- inherit_color fuel (color (objs v)) v;
          Ok (match c with Some c' => setColor lab c' d | None => d end)
     else Ok (match color (objs v) with
              | Some c' => setColor subassy c' d
              | None => d
              end));
  let subassys := <[k := (subassy, loc (objs v))]> subassys in
  do d <- add_children subassy subassys (children (objs v)) d;
  Ok (subassys, d).

Fixpoint toCAF_loop (coloredSTEP : bool) (fuel : nat) (pairs : list (string * ref))
    (subassys : gmap string (TDF_Label * Location)) (d : TDocStd_Document)
  : result (gmap string (TDF_Label * Location) * TDocStd_Document) :=
  match pairs with
  | [] => Ok (subassys, d)
  | (k, v) :: pairs' =>
      do (subassys, d) <- toCAF_body coloredSTEP fuel k v subassys d;
      toCAF_loop coloredSTEP fuel pairs' subassys d
  end.

(** [toCAF(assy, coloredSTEP)], returning [(top, doc)]. *)
Definition toCAF (assy : ref) (coloredSTEP : bool) (fuel : nat)
  : result (TDF_Label * TDocStd_Document) :=
  (* prepare a doc *)
  let doc := TDocStd_Document_new "XmlOcaf" in
  (* add root *)
  let '(top, doc) := NewShape doc in
  let doc := TDataStd_Name_Set_s top "CQ assembly" doc in
  (* add leafs and subassemblies *)
  do (subassys, doc) <-
    toCAF_loop coloredSTEP fuel (traverse (objs assy)) ∅ doc;
  match subassys !! name (objs assy) with
  | None => Raise (KeyError (name (objs assy)))
  | Some entry =>
      let doc := AddComponent top entry.1 (Location_wrapped (loc (objs assy))) doc in
      do doc <- UpdateAssemblies doc;
      Ok (top, doc)
  end.

End Converter.

(** ** Notions used to state the properties *)

Section Reading.

Context {TopLoc_Location TopoDS_Shape Shape : Type}.
Context `{!ShapeKernel TopLoc_Location TopoDS_Shape}.
Variable objs : ref -> @AssemblyProtocol TopLoc_Location Shape.

(** The labels [toCAF] creates for the [i]-th pair of the traversal: the
    root label comes first, then a part label and an assembly label per
    pair. *)
Definition part_label (i : nat) : TDF_Label := S (2 * i).
Definition assy_label (i : nat) : TDF_Label := S (S (2 * i)).

(** The document once the root label exists, before the loop. *)
Definition root_doc : @TDocStd_Document TopLoc_Location TopoDS_Shape :=
  TDataStd_Name_Set_s 0 "CQ assembly" (NewShape (TDocStd_Document_new "XmlOcaf")).2.

(** The [n]-th ancestor of [v] along [parent] ([v] itself for [n = 0]). *)
Fixpoint ancestor (n : nat) (v : ref) : option ref :=
  match n with
  | O => Some v
  | S n' =>
      match parent (objs v) with
      | Some p => ancestor n' p
      | None => None
      end
  end.

(** [a] is the nearest ancestor of [v] with a colour, [n] levels up, and
    that colour is [c]. *)
Definition nearest_colored (v : ref) (n : nat) (a : ref) (c : Color) : Prop :=
  ancestor n v = Some a /\
  color (objs a) = Some c /\
  forall m b, m < n -> ancestor m v = Some b -> color (objs b) = None.

(** The colour the colour handling of one iteration ends up with. *)
Definition resolved_color (coloredSTEP : bool) (fuel : nat) (v : ref)
  : result (option Color) :=
  if coloredSTEP then inherit_color objs fuel (color (objs v)) v
  else Ok (color (objs v)).

(** The label that receives the colour in each mode. *)
Definition colored_label (coloredSTEP : bool) (lab subassy : TDF_Label) :=
  if coloredSTEP then lab else subassy.

(** Labels not handed out yet carry no attribute. *)
Definition doc_fresh (d : @TDocStd_Document TopLoc_Location TopoDS_Shape) : Prop :=
  forall l, doc_labels d <= l ->
    doc_names d !! l = None /\ doc_shapes d !! l = None /\ doc_colors d !! l = None.

(** The chain of parents above [v] ends within [fuel] levels. *)
Definition reaches_root (fuel : nat) (v : ref) : Prop :=
  exists n a, n <= fuel /\ ancestor n v = Some a /\ parent (objs a) = None.

(** Every child's name is among the names yielded up to and including its
    parent's pair. *)
Definition children_recorded (pairs : list (string * ref)) : Prop :=
  forall i k v ch,
    pairs !! i = Some (k, v) -> ch ∈ children (objs v) ->
    name (objs ch) ∈ (take (S i) pairs).*1.


End Reading.

(** ** Sample inputs *)

(** A palette with one entry, and an arbitrary default colour. *)
Definition red_rgba : Quantity_ColorRGBA := RGBA 1 0 0 1.
Definition sample_palette (s : string) : option Quantity_ColorRGBA :=
  if String.eqb s "red" then Some red_rgba else None.
Definition sample_default : Quantity_ColorRGBA := RGBA 1 1 0 1.

Definition red : Color := mkColor red_rgba.

(** Placements and shapes are named by strings; a compound is the list of
    the shapes it aggregates. *)
Definition list_compound (l : list string) : @Compound (list string) :=
  mkCompound l.

(** A kernel for such shapes: the empty compound is the empty list, and the
    compound rebuilt for an assembly label lists the shapes of the labels
    its components refer to, each behind the name of its placement. *)
Definition placed (p : string) (shape : list string) : list string :=
  (fun x => p +:+ "/" +:+ x) <$> shape.

#[global] Instance list_kernel : ShapeKernel string (list string) := {|
  TopoDS_Compound_new := [];
  rebuilt_compound comps shapes l :=
    concat ((fun c => placed c.2 (default [] (shapes !! c.1.2)))
              <$> filter (fun c => c.1.1 = l) comps)
|}.

(** A three-level assembly: the red root "R" owns "A", which owns "B";
    neither "A" nor "B" has a colour.  Children are yielded before their
    parent. *)
Definition tower_pairs : list (string * ref) := [("B", 2); ("A", 1); ("R", 0)].

Definition tower (r : ref) : @AssemblyProtocol string string :=
  match r with
  | 0 => mkAssembly (mkLocation "at_R") "R" (Some red) [] [1] None tower_pairs
  | 1 => mkAssembly (mkLocation "at_A") "A" None ["box"] [2] (Some 0)
           [("B", 2); ("A", 1)]
  | _ => mkAssembly (mkLocation "at_B") "B" None ["cylinder"] [] (Some 1)
           [("B", 2)]
  end.

(** The two-level scenario: root "R" without a colour and one red child "A"
    holding a box. *)
Definition pair_tree (r : ref) : @AssemblyProtocol string string :=
  match r with
  | 0 => mkAssembly (mkLocation "at_R") "R" None [] [1] None [("A", 1); ("R", 0)]
  | _ => mkAssembly (mkLocation "at_A") "A" (Some red) ["box"] [] (Some 0)
           [("A", 1)]
  end.

(** A root whose second child "A" is never yielded. *)
Definition broken (r : ref) : @AssemblyProtocol string string :=
  match r with
  | 0 => mkAssembly (mkLocation "at_R") "R" None [] [2; 1] None
           [("B", 2); ("R", 0)]
  | 1 => mkAssembly (mkLocation "at_A") "A" None ["box"] [] (Some 0) [("A", 1)]
  | _ => mkAssembly (mkLocation "at_B") "B" None ["cylinder"] [] (Some 0)
           [("B", 2)]
  end.

(** Outside the input contract: a child that carries the name of its
    parent. *)
Definition namesakes (r : ref) : @AssemblyProtocol string string :=
  match r with
  | 0 => mkAssembly (mkLocation "at_parent") "A" None [] [1] None
           [("A", 1); ("A", 0)]
  | _ => mkAssembly (mkLocation "at_child") "A" None ["box"] [] (Some 0)
           [("A", 1)]
  end.

(** The document a conversion returns ([root_doc] when it does not). *)
Definition document_of (r : result (TDF_Label * @TDocStd_Document string (list string)))
  : @TDocStd_Document string (list string) :=
  match r with
  | Ok (_, d) => d
  | _ => root_doc
  end.

Definition tower_colored : @TDocStd_Document string (list string) :=
  document_of (toCAF "identity" list_compound tower 0 true 2).
Definition tower_plain : @TDocStd_Document string (list string) :=
  document_of (toCAF "identity" list_compound tower 0 false 0).

(** ** Further notions *)

Section MoreReading.

Context {TopLoc_Location TopoDS_Shape Shape : Type}.
Variable objs : ref -> @AssemblyProtocol TopLoc_Location Shape.

(** The chain of parents above [v] goes on for ever without a colour. *)
Definition endless_uncolored (v : ref) : Prop :=
  forall n, exists a, ancestor objs n v = Some a /\ color (objs a) = None.

(** The chain of parents above [v] ends [n] levels up without a colour on
    the way, [v] included. *)
Definition uncolored_to_root (v : ref) (n : nat) : Prop :=
  (exists a, ancestor objs n v = Some a /\ parent (objs a) = None) /\
  forall m b, m <= n -> ancestor objs m v = Some b -> color (objs b) = None.

(** Within [fuel] levels the chain of parents above [v] meets a colour or
    ends. *)
Definition stops_within (fuel : nat) (v : ref) : Prop :=
  exists n a, n <= fuel /\ ancestor objs n v = Some a /\
              (is_Some (color (objs a)) \/ parent (objs a) = None).

(** No child of a yielded node carries the name the node is yielded
    under. *)
Definition no_self_child (pairs : list (string * ref)) : Prop :=
  forall k v ch, (k, v) ∈ pairs -> ch ∈ children (objs v) -> name (objs ch) <> k.

(** What the conversion needs of its input to return: children recorded
    before use, the root object's name yielded, no child named as its own
    parent and, when colours are inherited, walks that stop within the
    fuel. *)
Definition convertible (assy : ref) (coloredSTEP : bool) (fuel : nat) : Prop :=
  children_recorded objs (traverse (objs assy)) /\
  name (objs assy) ∈ (traverse (objs assy)).*1 /\
  no_self_child (traverse (objs assy)) /\
  (coloredSTEP = true ->
   forall k v, (k, v) ∈ traverse (objs assy) -> stops_within fuel v).

(** Two assembly objects that differ at most in their [parent]. *)
Definition same_but_parent (x y : @AssemblyProtocol TopLoc_Location Shape) : Prop :=
  loc x = loc y /\ name x = name y /\ color x = color y /\
  shapes x = shapes y /\ children x = children y /\ traverse x = traverse y.

(** Two documents that differ at most in their colours. *)
Definition same_but_colors (d1 d2 : @TDocStd_Document TopLoc_Location TopoDS_Shape)
  : Prop :=
  doc_format d1 = doc_format d2 /\ doc_labels d1 = doc_labels d2 /\
  doc_names d1 = doc_names d2 /\ doc_shapes d1 = doc_shapes d2 /\
  doc_components d1 = doc_components d2 /\ doc_updated d1 = doc_updated d2.

(** Every dictionary entry holds a label of the document other than the
    root label, and every component hangs such a label below a label of the
    document that is not smaller. *)
Definition dict_bounded (labels : nat)
    (s : gmap string (TDF_Label * @Location TopLoc_Location)) : Prop :=
  forall key entry, s !! key = Some entry -> 0 < entry.1 < labels.

Definition components_bounded (labels : nat)
    (comps : list (TDF_Label * TDF_Label * TopLoc_Location)) : Prop :=
  forall a c p, (a, c, p) ∈ comps -> 0 < c /\ c <= a /\ a < labels.

(** Every component hangs a label below a larger one. *)
Definition components_descend
    (comps : list (TDF_Label * TDF_Label * TopLoc_Location)) : Prop :=
  forall a c p, (a, c, p) ∈ comps -> c < a.

(** With [m] pairs processed: every dictionary entry holds the assembly label
    of one of them, and every component hangs a part or assembly label of
    one of them below an assembly label of one of them. *)
Definition dict_labels (m : nat)
    (s : gmap string (TDF_Label * @Location TopLoc_Location)) : Prop :=
  forall key entry, s !! key = Some entry ->
    exists j, j < m /\ entry.1 = assy_label j.

Definition component_labels (m : nat)
    (comps : list (TDF_Label * TDF_Label * TopLoc_Location)) : Prop :=
  forall a c p, (a, c, p) ∈ comps ->
    (exists i, i < m /\ a = assy_label i) /\
    (exists i, i < m /\ (c = part_label i \/ c = assy_label i)).

End MoreReading.

(** An assembly that is its own parent and has no colour, and a root that
    yields nothing. *)
Definition self_parent (r : ref) : @AssemblyProtocol string string :=
  mkAssembly (mkLocation "here") "A" None [] [] (Some r) [("A", r)].

Definition silent (r : ref) : @AssemblyProtocol string string :=
  mkAssembly (mkLocation "here") "R" None ["box"] [] None [].

(** Two nodes yielded under the same name "A"; the root owns the first. *)
Definition twins (r : ref) : @AssemblyProtocol string string :=
  match r with
  | 0 => mkAssembly (mkLocation "at_R") "R" None [] [1] None
           [("A", 1); ("A", 2); ("R", 0)]
  | 1 => mkAssembly (mkLocation "at_first") "A" None ["box"] [] (Some 0) [("A", 1)]
  | _ => mkAssembly (mkLocation "at_second") "A" None ["cylinder"] [] None
           [("A", 2)]
  end.

(** The tower without any colour. *)
Definition plain_tower (r : ref) : @AssemblyProtocol string string :=
  mkAssembly (loc (tower r)) (name (tower r)) None (shapes (tower r))
    (children (tower r)) (parent (tower r)) (traverse (tower r)).

(** The tower without its parent references. *)
Definition orphaned_tower (r : ref) : @AssemblyProtocol string string :=
  mkAssembly (loc (tower r)) (name (tower r)) (color (tower r)) (shapes (tower r))
    (children (tower r)) None (traverse (tower r)).

(** Documents of further sample conversions. *)
Definition twins_plain : @TDocStd_Document string (list string) :=
  document_of (toCAF "identity" list_compound twins 0 false 0).
Definition plain_tower_colored : @TDocStd_Document string (list string) :=
  document_of (toCAF "identity" list_compound plain_tower 0 true 2).

(** * Properties of [Color] *)

Section ColorFacts.

Variable palette : string -> option Quantity_ColorRGBA.
Variable default_rgba : Quantity_ColorRGBA.

Lemma as_real_1 : as_real (PyInt 1) = Ok 1%float.
Proof. vm_compute. reflexivity. Qed.

Lemma to_binary32_1 : to_binary32 1 = 1%float.
Proof. vm_compute. reflexivity. Qed.

Lemma float_one_not_zero : 1%float <> 0%float.
Proof.
  intros H.
  assert (E : (1 =? 0)%float = (0 =? 0)%float) by (rewrite H; reflexivity).
  vm_compute in E. discriminate E.
Qed.

Lemma truthy_float_zero : truthy (PyFloat 0) = false.
Proof. vm_compute. reflexivity. Qed.

(** The three-value branch, for float channels: the kernel refuses channels
    out of range; otherwise the alpha is 1 unless the keyword [a] is present
    and true. *)
Lemma Color_init_rgb (r g b : float) (kwargs : gmap string PyVal) :
  Color_init palette default_rgba [PyFloat r; PyFloat g; PyFloat b] kwargs =
  if Quantity_ColorValidateRgbRange (to_binary32 r) (to_binary32 g) (to_binary32 b)
  then
    if truthy (kwargs_get kwargs "a")
    then do a <- as_real (kwargs_get kwargs "a");
         Ok (mkColor (RGBA (to_binary32 r) (to_binary32 g) (to_binary32 b)
                        (to_binary32 a)))
    else Ok (mkColor (RGBA (to_binary32 r) (to_binary32 g) (to_binary32 b) 1))
  else Raise Standard_OutOfRange.
Proof.
  unfold Color_init, Quantity_ColorRGBA_new, SetAlpha.
  rewrite as_real_1. simpl. rewrite to_binary32_1.
  destruct (Quantity_ColorValidateRgbRange _ _ _); simpl; [ | reflexivity ].
  destruct (truthy (kwargs_get kwargs "a")); [ | reflexivity ].
  destruct (as_real (kwargs_get kwargs "a")); reflexivity.
Qed.

(** C3 (what the code does): three floats and no keyword [a] give the
    kernel's range error or a colour whose alpha channel is 1, which is not
    0, although the overload's signature and docstring announce a default of
    0. *)
Theorem Color_rgb_no_alpha_is_opaque (r g b : float) :
  Color_init palette default_rgba [PyFloat r; PyFloat g; PyFloat b] ∅ =
    (if Quantity_ColorValidateRgbRange (to_binary32 r) (to_binary32 g) (to_binary32 b)
     then Ok (mkColor (RGBA (to_binary32 r) (to_binary32 g) (to_binary32 b) 1))
     else Raise Standard_OutOfRange) /\
  (forall c,
     Color_init palette default_rgba [PyFloat r; PyFloat g; PyFloat b] ∅ = Ok c ->
     Alpha (Color_wrapped c) = 1%float /\ Alpha (Color_wrapped c) <> 0%float).
Proof.
  rewrite Color_init_rgb. unfold kwargs_get. rewrite lookup_empty. simpl.
  split; [ reflexivity | ].
  destruct (Quantity_ColorValidateRgbRange _ _ _); [ | discriminate ].
  intros c [= <-]. simpl. split; [ reflexivity | apply float_one_not_zero ].
Qed.

(** C4: a name of the palette always constructs the colour the kernel
    defines for it; any other name raises the unknown-colour error. *)
Theorem Color_by_name (s : string) (kwargs : gmap string PyVal) :
  (forall c, palette s = Some c ->
     Color_init palette default_rgba [PyStr s] kwargs = Ok (mkColor c)) /\
  (palette s = None ->
     exists e, Color_init palette default_rgba [PyStr s] kwargs = Raise e /\
               UnknownColorError e).
Proof.
  split.
  - intros c Hc. unfold Color_init, ColorFromName_s. rewrite Hc. reflexivity.
  - intros Hn. exists (ValueError (Unknown_color_name (PyStr s))). split.
    + unfold Color_init, ColorFromName_s. rewrite Hn. reflexivity.
    + exists (PyStr s). reflexivity.
Qed.


(** C6 (as amended): four float channels that pass the kernel's range check
    construct a colour whose channels read back as the inputs narrowed to
    single precision; the round trip is exact for inputs that single
    precision represents. *)
Theorem Color_rgba_round_trip (r g b a : float) (kwargs : gmap string PyVal) :
  Quantity_ColorValidateRgbRange (to_binary32 r) (to_binary32 g) (to_binary32 b)
    = true ->
  exists c,
    Color_init palette default_rgba [PyFloat r; PyFloat g; PyFloat b; PyFloat a] kwargs
      = Ok c /\
    Red (Color_wrapped c) = to_binary32 r /\
    Green (Color_wrapped c) = to_binary32 g /\
    Blue (Color_wrapped c) = to_binary32 b /\
    Alpha (Color_wrapped c) = to_binary32 a /\
    (to_binary32 r = r -> to_binary32 g = g -> to_binary32 b = b ->
     to_binary32 a = a -> Color_wrapped c = RGBA r g b a).
Proof.
  intros Hrange.
  exists (mkColor (RGBA (to_binary32 r) (to_binary32 g) (to_binary32 b)
                     (to_binary32 a))).
  split_and!; try reflexivity.
  - unfold Color_init, Quantity_ColorRGBA_new. simpl. rewrite Hrange. reflexivity.
  - intros -> -> -> ->. reflexivity.
Qed.

(** C10: with three float channels that pass the kernel's range check, an
    explicit [a=0] or [a=0.0] leaves the alpha channel at 1, not 0; a
    numeric [a] is applied (narrowed to single precision) exactly when it is
    true, that is, nonzero. *)
Theorem Color_rgb_alpha_keyword (r g b : float) (kwargs : gmap string PyVal) :
  Quantity_ColorValidateRgbRange (to_binary32 r) (to_binary32 g) (to_binary32 b)
    = true ->
  (kwargs !! "a" = Some (PyInt 0) \/ kwargs !! "a" = Some (PyFloat 0) ->
     Color_init palette default_rgba [PyFloat r; PyFloat g; PyFloat b] kwargs
     = Ok (mkColor (RGBA (to_binary32 r) (to_binary32 g) (to_binary32 b) 1))) /\
  (forall a x, kwargs !! "a" = Some a -> as_real a = Ok x ->
     Color_init palette default_rgba [PyFloat r; PyFloat g; PyFloat b] kwargs
     = Ok (mkColor (RGBA (to_binary32 r) (to_binary32 g) (to_binary32 b)
                      (if truthy a then to_binary32 x else 1%float)))).
Proof.
  intros Hrange. split.
  - intros [H|H]; rewrite Color_init_rgb, Hrange; unfold kwargs_get; rewrite H;
      reflexivity.
  - intros a x H Hx. rewrite Color_init_rgb, Hrange. unfold kwargs_get.
    rewrite H. simpl. rewrite Hx. destruct (truthy a); reflexivity.
Qed.

End ColorFacts.

(** * Properties of [toCAF] *)

Section ConverterFacts.

Context {TopLoc_Location TopoDS_Shape Shape : Type}.
Context `{!ShapeKernel TopLoc_Location TopoDS_Shape}.
Variable TopLoc_Location_new : TopLoc_Location.
Variable makeCompound : list Shape -> @Compound TopoDS_Shape.
Variable objs : ref -> @AssemblyProtocol TopLoc_Location Shape.

Local Abbreviation doc := (@TDocStd_Document TopLoc_Location TopoDS_Shape).
Local Abbreviation dict := (gmap string (TDF_Label * @Location TopLoc_Location)).
Local Abbreviation body := (toCAF_body TopLoc_Location_new makeCompound objs).
Local Abbreviation loop := (toCAF_loop TopLoc_Location_new makeCompound objs).
Local Abbreviation resolved := (resolved_color objs).

(** The component a child lookup contributes. *)
Local Abbreviation wired subassy subassys :=
  (fun ch comp => exists entry : TDF_Label * Location,
     (subassys : dict) !! name (objs ch) = Some entry /\
     comp = (subassy, entry.1, Location_wrapped entry.2)).

(** ** One iteration *)

Lemma add_children_Ok subassy (subassys : dict) chs (d d' : doc) :
  add_children objs subassy subassys chs d = Ok d' ->
  exists comps,
    Forall2 (wired subassy subassys) chs comps /\
    d' = mkDocument (doc_format d) (doc_labels d) (doc_names d) (doc_shapes d)
           (doc_components d ++ comps) (doc_colors d) (doc_updated d).
Proof.
  revert d. induction chs as [|ch chs IH]; intros d H; simpl in H.
  - exists []. split; [ constructor | ].
    injection H as <-. rewrite app_nil_r. destruct d; reflexivity.
  - destruct (subassys !! name (objs ch)) as [entry|] eqn:E; [ | discriminate ].
    apply IH in H as (comps & HF & ->).
    exists ((subassy, entry.1, Location_wrapped entry.2) :: comps). split.
    + constructor; [ exists entry; auto | exact HF ].
    + simpl. rewrite <- app_assoc. reflexivity.
Qed.

Lemma add_children_missing subassy (subassys : dict) chs1 ch chs2 (d : doc) :
  (forall x, x ∈ chs1 -> is_Some (subassys !! name (objs x))) ->
  subassys !! name (objs ch) = None ->
  add_children objs subassy subassys (chs1 ++ ch :: chs2) d
  = Raise (KeyError (name (objs ch))).
Proof.
  revert d. induction chs1 as [|x chs1 IH]; intros d Hall Hnone; simpl.
  - rewrite Hnone. reflexivity.
  - destruct (Hall x) as [entry ->]; [ left | ].
    apply IH; [ | exact Hnone ].
    intros y Hy. apply Hall. right. exact Hy.
Qed.

Lemma add_children_total subassy (subassys : dict) chs (d : doc) :
  (forall x, x ∈ chs -> is_Some (subassys !! name (objs x))) ->
  exists d', add_children objs subassy subassys chs d = Ok d'.
Proof.
  revert d. induction chs as [|x chs IH]; intros d Hall; simpl.
  - eauto.
  - destruct (Hall x) as [entry ->]; [ left | ].
    apply IH. intros y Hy. apply Hall. right. exact Hy.
Qed.

(** A successful iteration, written out: with [n] labels before it, the
    part label is [n] and the assembly label [S n]. *)
Lemma toCAF_body_Ok flag fuel k v (subassys subassys' : dict) (d d' : doc) :
  body flag fuel k v subassys d = Ok (subassys', d') ->
  exists c comps,
    resolved flag fuel v = Ok c /\
    subassys' = <[k := (S (doc_labels d), loc (objs v))]> subassys /\
    Forall2 (wired (S (doc_labels d)) subassys') (children (objs v)) comps /\
    d' = mkDocument (doc_format d) (S (S (doc_labels d)))
           (<[S (doc_labels d) := k]> (<[doc_labels d := k +:+ "_part"]> (doc_names d)))
           (<[S (doc_labels d) := TopoDS_Compound_new]>
              (<[doc_labels d := Compound_wrapped (makeCompound (shapes (objs v)))]>
                 (doc_shapes d)))
           (doc_components d
              ++ (S (doc_labels d), doc_labels d, TopLoc_Location_new) :: comps)
           (match c with
            | Some c' =>
                <[colored_label flag (doc_labels d) (S (doc_labels d))
                  := Color_wrapped c']> (doc_colors d)
            | None => doc_colors d
            end)
           (doc_updated d).
Proof.
  unfold toCAF_body, resolved_color. simpl. intros H.
  destruct flag; simpl in H.
  - destruct (inherit_color objs fuel (color (objs v)) v) as [c| | |] eqn:Ec;
      simpl in H; try discriminate.
    match type of H with rbind ?m _ = _ => destruct m as [d1| | |] eqn:Ea end;
      simpl in H; try discriminate.
    injection H as <- <-.
    apply add_children_Ok in Ea as (comps & HF & ->).
    exists c, comps. repeat split; [ exact HF | ].
    destruct c; simpl; rewrite insert_insert_eq, <- app_assoc; reflexivity.
  - match type of H with rbind ?m _ = _ => destruct m as [d1| | |] eqn:Ea end;
      simpl in H; try discriminate.
    injection H as <- <-.
    apply add_children_Ok in Ea as (comps & HF & ->).
    exists (color (objs v)), comps. repeat split; [ exact HF | ].
    destruct (color (objs v)); simpl; rewrite insert_insert_eq, <- app_assoc;
      reflexivity.
Qed.

(** ** The loop *)

Lemma toCAF_loop_app flag fuel pairs1 pairs2 (s : dict) (d : doc) :
  loop flag fuel (pairs1 ++ pairs2) s d =
  do (s1, d1) <- loop flag fuel pairs1 s d; loop flag fuel pairs2 s1 d1.
Proof.
  revert s d. induction pairs1 as [|[k v] pairs1 IH]; intros s d; simpl.
  - reflexivity.
  - destruct (body flag fuel k v s d) as [[s1 d1]| | |]; simpl; auto.
Qed.

Lemma root_doc_fresh : doc_fresh (root_doc : doc).
Proof.
  intros l Hl. simpl in *. repeat split; try apply lookup_empty;
    rewrite lookup_insert_ne by lia; apply lookup_empty.
Qed.

(** What a successful run of the loop leaves behind: two labels per pair,
    the attributes of older labels untouched, components only appended. *)
Lemma toCAF_loop_Ok flag fuel pairs (s s' : dict) (d d' : doc) :
  loop flag fuel pairs s d = Ok (s', d') ->
  doc_labels d' = doc_labels d + 2 * length pairs /\
  (forall l, l < doc_labels d ->
     doc_names d' !! l = doc_names d !! l /\
     doc_shapes d' !! l = doc_shapes d !! l /\
     doc_colors d' !! l = doc_colors d !! l) /\
  (exists rest, doc_components d' = doc_components d ++ rest) /\
  (doc_fresh d -> doc_fresh d') /\
  (doc_fresh d -> size (doc_shapes d') = size (doc_shapes d) + 2 * length pairs).
Proof.
  revert s d. induction pairs as [|[k v] pairs IH]; intros s d H; simpl in H.
  - injection H as <- <-. simpl. split_and!; auto; try lia.
    exists []. rewrite app_nil_r. reflexivity.
  - destruct (body flag fuel k v s d) as [[s1 d1]| | |] eqn:Eb; simpl in H;
      try discriminate.
    apply toCAF_body_Ok in Eb as (c & comps & _ & _ & _ & Hd1).
    apply IH in H as (Hlab & Hold & [rest Hcomp] & Hfr & Hsize).
    assert (Hfresh1 : doc_fresh d -> doc_fresh d1).
    { intros Hf l Hl. subst d1. simpl in *.
      destruct (Hf l) as (Hn & Hs & Hc); [ lia | ].
      repeat split.
      - rewrite !lookup_insert_ne by lia. exact Hn.
      - rewrite !lookup_insert_ne by lia. exact Hs.
      - destruct c; [ | exact Hc ].
        rewrite lookup_insert_ne; [ exact Hc | ].
        unfold colored_label. destruct flag; lia. }
    subst d1. simpl in *. split_and!.
    + lia.
    + intros l Hl. destruct (Hold l) as (Hn & Hs & Hc); [ lia | ].
      rewrite Hn, Hs, Hc. split_and!.
      * rewrite !lookup_insert_ne by lia. reflexivity.
      * rewrite !lookup_insert_ne by lia. reflexivity.
      * destruct c; [ | reflexivity ].
        rewrite lookup_insert_ne; [ reflexivity | ].
        unfold colored_label. destruct flag; lia.
    + rewrite Hcomp, <- app_assoc. eauto.
    + auto.
    + intros Hf. rewrite Hsize by auto.
      rewrite !map_size_insert_None; [ lia | | ].
      * apply (Hf (doc_labels d)). lia.
      * rewrite lookup_insert_ne by lia. apply (Hf (S (doc_labels d))). lia.
Qed.

(** The dictionary after the loop: keys that were not yielded keep their
    entry, and a yielded key holds the entry of its last occurrence. *)
Lemma toCAF_loop_dict_other flag fuel pairs (s s' : dict) (d d' : doc) key :
  loop flag fuel pairs s d = Ok (s', d') ->
  key ∉ pairs.*1 ->
  s' !! key = s !! key.
Proof.
  revert s d. induction pairs as [|[k v] pairs IH]; intros s d H Hk; simpl in H.
  - injection H as <- <-. reflexivity.
  - destruct (body flag fuel k v s d) as [[s1 d1]| | |] eqn:Eb; simpl in H;
      try discriminate.
    apply toCAF_body_Ok in Eb as (c & comps & _ & -> & _ & _).
    simpl in Hk. apply not_elem_of_cons in Hk as [Hne Hk].
    rewrite (IH _ _ H Hk). apply lookup_insert_ne. congruence.
Qed.

Lemma toCAF_loop_dict_last flag fuel pairs1 k v pairs2 (s s' : dict) (d d' : doc) :
  loop flag fuel (pairs1 ++ (k, v) :: pairs2) s d = Ok (s', d') ->
  k ∉ pairs2.*1 ->
  s' !! k = Some (S (doc_labels d + 2 * length pairs1), loc (objs v)).
Proof.
  intros H Hk. rewrite toCAF_loop_app in H.
  destruct (loop flag fuel pairs1 s d) as [[s1 d1]| | |] eqn:E1; simpl in H;
    try discriminate.
  destruct (body flag fuel k v s1 d1) as [[s2 d2]| | |] eqn:Eb; simpl in H;
    try discriminate.
  apply toCAF_loop_Ok in E1 as (Hlab & _).
  apply toCAF_body_Ok in Eb as (c & comps & _ & -> & _ & _).
  rewrite (toCAF_loop_dict_other _ _ _ _ _ _ _ _ H Hk).
  rewrite lookup_insert_eq, Hlab. reflexivity.
Qed.

Lemma toCAF_loop_dict_dom flag fuel pairs (s s' : dict) (d d' : doc) key :
  loop flag fuel pairs s d = Ok (s', d') ->
  is_Some (s' !! key) <-> is_Some (s !! key) \/ key ∈ pairs.*1.
Proof.
  revert s d. induction pairs as [|[k v] pairs IH]; intros s d H; simpl in H.
  - injection H as <- <-. simpl. rewrite elem_of_nil. tauto.
  - destruct (body flag fuel k v s d) as [[s1 d1]| | |] eqn:Eb; simpl in H;
      try discriminate.
    apply toCAF_body_Ok in Eb as (c & comps & _ & -> & _ & _).
    rewrite (IH _ _ H). simpl. rewrite elem_of_cons, lookup_insert_is_Some.
    destruct (decide (k = key)) as [->|Hne]; intuition congruence.
Qed.

(** ** The labels of dictionary entries and components *)

Lemma dict_labels_insert m (s : dict) k (l : @Location TopLoc_Location) :
  dict_labels m s -> dict_labels (S m) (<[k := (assy_label m, l)]> s).
Proof.
  intros Hs key entry He.
  destruct (decide (k = key)) as [->|Hne].
  - rewrite lookup_insert_eq in He. injection He as <-. exists m. split; [ lia | reflexivity ].
  - rewrite lookup_insert_ne in He by assumption.
    destruct (Hs key entry He) as (j & Hj & Hej). exists j. split; [ lia | exact Hej ].
Qed.

Lemma toCAF_loop_structure flag fuel pairs : forall m (s s' : dict) (d d' : doc),
  doc_labels d = 2 * m + 1 ->
  dict_labels m s ->
  component_labels m (doc_components d) ->
  loop flag fuel pairs s d = Ok (s', d') ->
  dict_labels (m + length pairs) s' /\
  component_labels (m + length pairs) (doc_components d').
Proof.
  induction pairs as [|[k v] pairs IH]; intros m s s' d d' Hlab Hs Hc H; simpl in H.
  - injection H as <- <-. rewrite Nat.add_0_r. auto.
  - destruct (body flag fuel k v s d) as [[s1 d1]| | |] eqn:Eb; simpl in H;
      try discriminate.
    apply toCAF_body_Ok in Eb as (c & comps & _ & Hs1 & HF & Hd1).
    assert (Hp : doc_labels d = part_label m) by (unfold part_label; lia).
    assert (Ha : S (doc_labels d) = assy_label m) by (unfold assy_label; lia).
    rewrite Ha in Hs1, HF, Hd1.
    assert (Hs1' : dict_labels (S m) s1).
    { rewrite Hs1. apply dict_labels_insert, Hs. }
    replace (m + length ((k, v) :: pairs)) with (S m + length pairs)
      by (simpl; lia).
    apply (IH (S m) s1 s' d1 d'); [ | exact Hs1' | | exact H ].
    + subst d1. simpl. lia.
    + subst d1. simpl. intros a c0 p Hin.
      apply elem_of_app in Hin as [Hin|Hin].
      * destruct (Hc a c0 p Hin) as [(i1 & Hi1 & E1) (i2 & Hi2 & E2)].
        split; [ exists i1 | exists i2 ]; split; auto; lia.
      * apply elem_of_cons in Hin as [Hin|Hin].
        { injection Hin as -> -> ->. rewrite Hp.
          split; exists m; split; auto; lia. }
        apply list_elem_of_lookup in Hin as [x Hx].
        destruct (Forall2_lookup_r _ _ _ _ _ HF Hx) as (ch & _ & entry & He & Hcomp).
        injection Hcomp as -> -> ->.
        destruct (Hs1' _ _ He) as (j & Hj & Hej).
        split; [ exists m | exists j ]; split; auto; lia.
Qed.

(** ** The whole conversion *)

Lemma UpdateAssemblies_Ok (d d' : doc) :
  UpdateAssemblies d = Ok d' -> d' = rebuild_assemblies d.
Proof.
  unfold UpdateAssemblies.
  destruct (forallb _ _); [ intros [= <-]; reflexivity | discriminate ].
Qed.

(** [UpdateAssemblies] leaves the shape of a label without components as it
    is, and a label that holds a shape still holds one. *)
Lemma rebuild_assemblies_shape (d : doc) l :
  doc_shapes (rebuild_assemblies d) !! l =
  (fun s => match component_refs (doc_components d) l with
            | [] => s
            | _ => rebuilt_compound (doc_components d) (doc_shapes d) l
            end) <$> doc_shapes d !! l.
Proof.
  simpl. rewrite map_lookup_imap. destruct (doc_shapes d !! l); reflexivity.
Qed.

Lemma component_refs_nil (comps : list (TDF_Label * TDF_Label * TopLoc_Location)) l :
  (forall a c p, (a, c, p) ∈ comps -> a <> l) -> component_refs comps l = [].
Proof.
  intros Hno. unfold component_refs.
  induction comps as [|[[a c] p] comps IH]; [ reflexivity | ].
  rewrite filter_cons_False.
  - apply IH. intros a' c' p' Hin. apply (Hno a' c' p'). right. exact Hin.
  - simpl. apply (Hno a c p). left.
Qed.

Lemma toCAF_unfold assy flag fuel :
  toCAF TopLoc_Location_new makeCompound objs assy flag fuel =
  do (s, d) <- loop flag fuel (traverse (objs assy)) ∅ root_doc;
  match s !! name (objs assy) with
  | None => Raise (KeyError (name (objs assy)))
  | Some entry =>
      do docu <- UpdateAssemblies
                   (AddComponent 0 entry.1 (Location_wrapped (loc (objs assy))) d);
      Ok (0, docu)
  end.
Proof. reflexivity. Qed.

Lemma toCAF_Ok_inv assy flag fuel top (docu : doc) :
  toCAF TopLoc_Location_new makeCompound objs assy flag fuel = Ok (top, docu) ->
  exists (s : dict) (d : doc) entry,
    loop flag fuel (traverse (objs assy)) ∅ root_doc = Ok (s, d) /\
    s !! name (objs assy) = Some entry /\
    top = 0 /\
    docu = rebuild_assemblies
             (AddComponent 0 entry.1 (Location_wrapped (loc (objs assy))) d).
Proof.
  rewrite toCAF_unfold. intros H.
  destruct (loop flag fuel (traverse (objs assy)) ∅ root_doc) as [[s d]| | |];
    simpl in H; try discriminate.
  destruct (s !! name (objs assy)) as [entry|] eqn:E; try discriminate.
  destruct (UpdateAssemblies _) as [d'| | |] eqn:Eu; simpl in H; try discriminate.
  apply UpdateAssemblies_Ok in Eu.
  injection H as <- <-. exists s, d, entry. auto.
Qed.

(** Everything the final document records about the [i]-th yielded node. *)
Lemma toCAF_node assy flag fuel top (docu : doc) i k v :
  toCAF TopLoc_Location_new makeCompound objs assy flag fuel = Ok (top, docu) ->
  traverse (objs assy) !! i = Some (k, v) ->
  exists c (s_i : dict) (d_i : doc),
    loop flag fuel (take (S i) (traverse (objs assy))) ∅ root_doc = Ok (s_i, d_i) /\
    resolved flag fuel v = Ok c /\
    doc_names docu !! part_label i = Some (k +:+ "_part") /\
    doc_names docu !! assy_label i = Some k /\
    doc_shapes docu !! part_label i
      = Some (Compound_wrapped (makeCompound (shapes (objs v)))) /\
    is_Some (doc_shapes docu !! assy_label i) /\
    doc_colors docu !! colored_label flag (part_label i) (assy_label i)
      = Color_wrapped <$> c /\
    doc_colors docu !! colored_label (negb flag) (part_label i) (assy_label i)
      = None /\
    (assy_label i, part_label i, TopLoc_Location_new) ∈ doc_components docu /\
    forall ch, ch ∈ children (objs v) ->
      exists entry, s_i !! name (objs ch) = Some entry /\
        (assy_label i, entry.1, Location_wrapped entry.2) ∈ doc_components docu.
Proof.
  intros H Hi.
  apply toCAF_Ok_inv in H as (s3 & d3 & root_entry & Hloop & _ & _ & ->).
  pose proof (lookup_lt_Some _ _ _ Hi) as Hlt.
  assert (Hrefs : component_refs
                    (doc_components d3
                       ++ [(0, root_entry.1, Location_wrapped (loc (objs assy)))])
                    (part_label i) = []).
  { assert (Hs0 : dict_labels 0 (∅ : dict)).
    { intros key e Hk. rewrite lookup_empty in Hk. discriminate. }
    assert (Hc0 : component_labels 0 (doc_components (root_doc : doc))).
    { intros a c p Hin. apply elem_of_nil in Hin. destruct Hin. }
    destruct (toCAF_loop_structure flag fuel (traverse (objs assy)) 0 ∅ s3
                root_doc d3 eq_refl Hs0 Hc0 Hloop) as [_ Hc].
    apply component_refs_nil. intros a c p Hin.
    apply elem_of_app in Hin as [Hin|Hin].
    - destruct (Hc a c p Hin) as [(j & _ & ->) _].
      unfold part_label, assy_label. lia.
    - apply list_elem_of_singleton in Hin. injection Hin as -> _ _.
      unfold part_label. lia. }
  pose proof (take_drop_middle _ _ _ Hi) as Hsplit.
  rewrite <- Hsplit, toCAF_loop_app in Hloop.
  destruct (loop flag fuel (take i (traverse (objs assy))) ∅ root_doc)
    as [[s1 d1]| | |] eqn:E1; simpl in Hloop; try discriminate.
  destruct (body flag fuel k v s1 d1) as [[s2 d2]| | |] eqn:Eb; simpl in Hloop;
    try discriminate.
  pose proof (toCAF_loop_Ok _ _ _ _ _ _ _ E1) as (Hlab1 & _ & _ & Hfr1 & _).
  specialize (Hfr1 root_doc_fresh).
  rewrite length_take_le in Hlab1 by lia. simpl in Hlab1.
  pose proof (toCAF_body_Ok _ _ _ _ _ _ _ _ Eb) as (c & comps & Hc & Hs2 & HF & Hd2).
  pose proof (toCAF_loop_Ok _ _ _ _ _ _ _ Hloop) as (_ & Hold & [rest Hrest] & _ & _).
  assert (Hp : part_label i = doc_labels d1) by (unfold part_label; lia).
  assert (Ha : assy_label i = S (doc_labels d1)) by (unfold assy_label; lia).
  destruct (Hfr1 (doc_labels d1)) as (_ & _ & Hc0); [ lia | ].
  destruct (Hfr1 (S (doc_labels d1))) as (_ & Hs1 & Hc1); [ lia | ].
  exists c, s2, d2. split_and!.
  - rewrite (take_S_r _ _ _ Hi), toCAF_loop_app, E1. simpl. rewrite Eb.
    reflexivity.
  - exact Hc.
  - simpl. rewrite Hp. destruct (Hold (doc_labels d1)) as (-> & _ & _).
    { subst d2. simpl. lia. }
    subst d2. simpl. rewrite lookup_insert_ne by lia. apply lookup_insert_eq.
  - simpl. rewrite Ha. destruct (Hold (S (doc_labels d1))) as (-> & _ & _).
    { subst d2. simpl. lia. }
    subst d2. simpl. apply lookup_insert_eq.
  - rewrite rebuild_assemblies_shape. unfold AddComponent.
    cbn [doc_components doc_shapes]. rewrite Hrefs, Hp.
    destruct (Hold (doc_labels d1)) as (_ & -> & _).
    { subst d2. simpl. lia. }
    subst d2. cbn [doc_shapes].
    rewrite lookup_insert_ne, lookup_insert_eq by lia. reflexivity.
  - rewrite rebuild_assemblies_shape. unfold AddComponent.
    cbn [doc_components doc_shapes]. rewrite fmap_is_Some, Ha.
    destruct (Hold (S (doc_labels d1))) as (_ & -> & _).
    { subst d2. simpl. lia. }
    subst d2. cbn [doc_shapes]. rewrite lookup_insert_eq. eauto.
  - simpl. rewrite Hp, Ha.
    destruct (Hold (colored_label flag (doc_labels d1) (S (doc_labels d1))))
      as (_ & _ & ->).
    { subst d2. simpl. unfold colored_label. destruct flag; lia. }
    subst d2. simpl. destruct c as [c'|]; simpl.
    + apply lookup_insert_eq.
    + unfold colored_label. destruct flag; assumption.
  - simpl. rewrite Hp, Ha.
    destruct (Hold (colored_label (negb flag) (doc_labels d1) (S (doc_labels d1))))
      as (_ & _ & ->).
    { subst d2. simpl. unfold colored_label. destruct flag; simpl; lia. }
    subst d2. simpl.
    assert (Hn : doc_colors d1
                   !! colored_label (negb flag) (doc_labels d1) (S (doc_labels d1))
                 = None)
      by (unfold colored_label; destruct flag; assumption).
    destruct c as [c'|]; [ | exact Hn ].
    rewrite lookup_insert_ne; [ exact Hn | ].
    unfold colored_label. destruct flag; simpl; lia.
  - simpl. rewrite Hrest, Hp, Ha. subst d2. simpl.
    rewrite !elem_of_app, elem_of_cons. auto.
  - intros ch Hch.
    apply list_elem_of_lookup in Hch as [p Hp'].
    destruct (Forall2_lookup_l _ _ _ _ _ HF Hp') as (comp & Hcomp & entry & He & ->).
    exists entry. split; [ exact He | ].
    simpl. rewrite Hrest, Ha. subst d2. simpl.
    rewrite !elem_of_app, elem_of_cons.
    left. left. right. right. apply list_elem_of_lookup. eauto.
Qed.

(** ** The ancestor walk *)

Lemma nearest_colored_step v p n a c :
  parent (objs v) = Some p ->
  nearest_colored objs v (S n) a c -> nearest_colored objs p n a c.
Proof.
  intros Hp (Ha & Hc & Hnone). simpl in Ha. rewrite Hp in Ha.
  split_and!; [ exact Ha | exact Hc | ].
  intros m b Hm Hb. apply (Hnone (S m) b); [ lia | ].
  simpl. rewrite Hp. exact Hb.
Qed.

Lemma inherit_color_eq fuel color0 tmp :
  inherit_color objs fuel color0 tmp =
  match color0, parent (objs tmp) with
  | None, Some p =>
      match fuel with
      | O => Diverge
      | S fuel' => inherit_color objs fuel' (color (objs p)) p
      end
  | _, _ => Ok color0
  end.
Proof. destruct fuel; reflexivity. Qed.

(** The walk stops at the nearest coloured node of the chain, after as many
    steps as it is levels up; with less fuel than that it is still running. *)
Lemma inherit_color_nearest n : forall fuel v a c,
  nearest_colored objs v n a c ->
  inherit_color objs fuel (color (objs v)) v
  = if decide (n <= fuel) then Ok (Some c) else Diverge.
Proof.
  induction n as [|n IH]; intros fuel v a c Hnear.
  - destruct Hnear as (Ha & Hc & _). simpl in Ha. injection Ha as ->.
    rewrite Hc. case_decide; [ | lia ]. destruct fuel; reflexivity.
  - pose proof Hnear as (Ha & Hc & Hnone).
    assert (Hv : color (objs v) = None) by (apply (Hnone 0 v); [ lia | reflexivity ]).
    simpl in Ha. destruct (parent (objs v)) as [p|] eqn:Hp; [ | discriminate ].
    rewrite inherit_color_eq, Hv, Hp. destruct fuel as [|fuel].
    + case_decide; [ lia | reflexivity ].
    + rewrite (IH fuel p a c (nearest_colored_step _ _ _ _ _ Hp Hnear)).
      repeat case_decide; auto; lia.
Qed.

(** The walk returns whenever the chain of parents ends within the fuel. *)
Lemma inherit_color_returns n : forall fuel v a,
  n <= fuel -> ancestor objs n v = Some a -> parent (objs a) = None ->
  exists r, inherit_color objs fuel (color (objs v)) v = Ok r.
Proof.
  induction n as [|n IH]; intros fuel v a Hle Ha Hroot.
  - simpl in Ha. injection Ha as ->.
    destruct fuel; simpl; rewrite Hroot; destruct (color (objs a)); eauto.
  - simpl in Ha. destruct (parent (objs v)) as [p|] eqn:Hp; [ | discriminate ].
    destruct fuel as [|fuel]; [ lia | ].
    simpl. rewrite Hp. destruct (color (objs v)); eauto.
    apply (IH fuel p a); [ lia | exact Ha | exact Hroot ].
Qed.

(** ** When the conversion returns *)

Lemma resolved_color_returns flag fuel v :
  (flag = true -> reaches_root objs fuel v) ->
  exists c, resolved flag fuel v = Ok c.
Proof.
  unfold resolved_color. destruct flag; [ | eauto ].
  intros H. destruct (H eq_refl) as (n & a & Hle & Ha & Hroot).
  eapply inherit_color_returns; eauto.
Qed.

Lemma toCAF_body_returns flag fuel k v (s : dict) (d : doc) :
  (flag = true -> reaches_root objs fuel v) ->
  (forall ch, ch ∈ children (objs v) ->
     is_Some (s !! name (objs ch)) \/ name (objs ch) = k) ->
  exists d', body flag fuel k v s d
             = Ok (<[k := (S (doc_labels d), loc (objs v))]> s, d').
Proof.
  intros Hwalk Hch.
  destruct (resolved_color_returns flag fuel v Hwalk) as [c Hc].
  unfold toCAF_body. simpl.
  assert (Hall : forall x, x ∈ children (objs v) ->
            is_Some ((<[k := (S (doc_labels d), loc (objs v))]> s : dict)
                       !! name (objs x))).
  { intros x Hx. rewrite lookup_insert_is_Some.
    destruct (decide (k = name (objs x))); [ auto | ].
    right. split; [ assumption | ]. destruct (Hch x Hx); congruence. }
  unfold resolved_color in Hc. destruct flag.
  - rewrite Hc. simpl.
    match goal with |- context [add_children ?o ?a ?b ?c ?e] =>
      destruct (add_children_total a b c e Hall) as [d' ->] end.
    simpl. eauto.
  - simpl.
    match goal with |- context [add_children ?o ?a ?b ?c ?e] =>
      destruct (add_children_total a b c e Hall) as [d' ->] end.
    simpl. eauto.
Qed.

Lemma toCAF_loop_returns flag fuel pairs : forall (s : dict) (d : doc),
  (flag = true -> forall k v, (k, v) ∈ pairs -> reaches_root objs fuel v) ->
  (forall i k v ch,
     pairs !! i = Some (k, v) -> ch ∈ children (objs v) ->
     is_Some (s !! name (objs ch)) \/ name (objs ch) ∈ (take (S i) pairs).*1) ->
  exists s' d', loop flag fuel pairs s d = Ok (s', d').
Proof.
  induction pairs as [|[k v] pairs IH]; intros s d Hwalk Hch; simpl.
  - eauto.
  - destruct (toCAF_body_returns flag fuel k v s d) as [d1 ->].
    { intros Hf. apply (Hwalk Hf k). left. }
    { intros ch Hin. destruct (Hch 0 k v ch eq_refl Hin) as [?|Hk]; [ auto | ].
      simpl in Hk. rewrite ?take_0 in Hk. apply list_elem_of_singleton in Hk. auto. }
    simpl. apply IH.
    + intros Hf k' v' Hin. apply (Hwalk Hf k'). right. exact Hin.
    + intros i k' v' ch Hi Hin.
      destruct (Hch (S i) k' v' ch Hi Hin) as [Hs|Hk].
      * left. rewrite lookup_insert_is_Some.
        destruct (decide (k = name (objs ch))); auto.
      * simpl in Hk. apply elem_of_cons in Hk as [->|Hk]; [ | auto ].
        left. rewrite lookup_insert_is_Some. auto.
Qed.

Lemma toCAF_body_missing flag fuel k v (s : dict) (d : doc) c chs1 ch chs2 :
  resolved flag fuel v = Ok c ->
  children (objs v) = chs1 ++ ch :: chs2 ->
  (forall x, x ∈ chs1 -> is_Some (s !! name (objs x)) \/ name (objs x) = k) ->
  s !! name (objs ch) = None -> name (objs ch) <> k ->
  body flag fuel k v s d = Raise (KeyError (name (objs ch))).
Proof.
  intros Hc Hchs Hall Hnone Hne.
  unfold toCAF_body. simpl. rewrite Hchs.
  unfold resolved_color in Hc.
  assert (Hall' : forall x, x ∈ chs1 ->
            is_Some ((<[k := (S (doc_labels d), loc (objs v))]> s : dict)
                       !! name (objs x))).
  { intros x Hx. rewrite lookup_insert_is_Some.
    destruct (decide (k = name (objs x))); [ auto | ].
    right. split; [ assumption | ]. destruct (Hall x Hx); congruence. }
  assert (Hnone' : (<[k := (S (doc_labels d), loc (objs v))]> s : dict)
                     !! name (objs ch) = None).
  { rewrite lookup_insert_ne by congruence. exact Hnone. }
  destruct flag.
  - rewrite Hc. simpl. rewrite add_children_missing by assumption. reflexivity.
  - simpl. rewrite add_children_missing by assumption. reflexivity.
Qed.



(** ** When the walks return *)

Lemma inherit_color_returns_iff fuel : forall v,
  (exists c, inherit_color objs fuel (color (objs v)) v = Ok c)
  <-> stops_within objs fuel v.
Proof.
  induction fuel as [|fuel IH]; intros v; rewrite inherit_color_eq; split.
  - intros [c H]. exists 0, v. split_and!; [ lia | reflexivity | ].
    destruct (color (objs v)); [ left; eauto | ].
    destruct (parent (objs v)); [ discriminate | auto ].
  - intros (n & a & Hn & Ha & Hstop).
    assert (n = 0) as -> by lia. simpl in Ha. injection Ha as <-.
    destruct Hstop as [[c ->]| ->]; [ eauto | ].
    destruct (color (objs v)); eauto.
  - intros [c H].
    destruct (color (objs v)) as [c0|] eqn:Ec.
    { exists 0, v. split_and!; [ lia | reflexivity | ]. left. rewrite Ec. eauto. }
    destruct (parent (objs v)) as [p|] eqn:Ep.
    + destruct (proj1 (IH p) (ex_intro _ c H)) as (n & a & Hn & Ha & Hstop).
      exists (S n), a. split_and!; [ lia | simpl; rewrite Ep; exact Ha | exact Hstop ].
    + exists 0, v. split_and!; [ lia | reflexivity | auto ].
  - intros (n & a & Hn & Ha & Hstop).
    destruct (color (objs v)) as [c0|] eqn:Ec; [ eauto | ].
    destruct (parent (objs v)) as [p|] eqn:Ep; [ | eauto ].
    destruct n as [|n].
    + simpl in Ha. injection Ha as <-.
      destruct Hstop as [[c Hc]|Hp]; congruence.
    + simpl in Ha. rewrite Ep in Ha.
      apply (proj2 (IH p)). exists n, a. split_and!; [ lia | exact Ha | exact Hstop ].
Qed.

Lemma toCAF_loop_returns_when flag fuel pairs : forall (s : dict) (d : doc),
  (forall k v, (k, v) ∈ pairs -> exists c, resolved_color objs flag fuel v = Ok c) ->
  (forall i k v ch,
     pairs !! i = Some (k, v) -> ch ∈ children (objs v) ->
     is_Some (s !! name (objs ch)) \/ name (objs ch) ∈ (take (S i) pairs).*1) ->
  exists s' d', loop flag fuel pairs s d = Ok (s', d').
Proof.
  induction pairs as [|[k v] pairs IH]; intros s d Hwalk Hch; simpl.
  - eauto.
  - destruct (Hwalk k v) as [c Hc]; [ left | ].
    assert (Hall : forall x, x ∈ children (objs v) ->
              is_Some ((<[k := (S (doc_labels d), loc (objs v))]> s : dict)
                         !! name (objs x))).
    { intros x Hx. rewrite lookup_insert_is_Some.
      destruct (decide (k = name (objs x))); [ auto | ].
      right. split; [ assumption | ].
      destruct (Hch 0 k v x eq_refl Hx) as [?|Hk]; [ assumption | ].
      simpl in Hk. apply list_elem_of_singleton in Hk. congruence. }
    assert (Hb : exists d1, body flag fuel k v s d
                   = Ok (<[k := (S (doc_labels d), loc (objs v))]> s, d1)).
    { unfold toCAF_body. simpl. unfold resolved_color in Hc. destruct flag.
      - rewrite Hc. simpl.
        match goal with |- context [add_children objs ?a ?b ?c ?e] =>
          destruct (add_children_total a b c e Hall) as [d' ->] end.
        simpl. eauto.
      - simpl.
        match goal with |- context [add_children objs ?a ?b ?c ?e] =>
          destruct (add_children_total a b c e Hall) as [d' ->] end.
        simpl. eauto. }
    destruct Hb as [d1 ->]. simpl. apply IH.
    + intros k' v' Hin. apply (Hwalk k'). right. exact Hin.
    + intros i k' v' ch Hi Hin.
      destruct (Hch (S i) k' v' ch Hi Hin) as [Hs|Hk].
      * left. rewrite lookup_insert_is_Some.
        destruct (decide (k = name (objs ch))); auto.
      * simpl in Hk. apply elem_of_cons in Hk as [->|Hk]; [ | auto ].
        left. rewrite lookup_insert_is_Some. auto.
Qed.

(** ** Components by parent label *)







(** ** The final update *)

Lemma elem_of_component_refs
    (comps : list (TDF_Label * TDF_Label * TopLoc_Location)) l c :
  c ∈ component_refs comps l <-> exists p, (l, c, p) ∈ comps.
Proof.
  unfold component_refs. rewrite list_elem_of_fmap. split.
  - intros ([[a c'] p] & -> & Hin). apply list_elem_of_filter in Hin as [Ha Hin].
    simpl in *. subst a. eauto.
  - intros [p Hin]. exists (l, c, p). split; [ reflexivity | ].
    apply list_elem_of_filter. split; [ reflexivity | exact Hin ].
Qed.

(** Where every reference below a label other than the root goes to a
    smaller label, the descent from a label returns. *)
Lemma updateComponent_descend
    (comps : list (TDF_Label * TDF_Label * TopLoc_Location)) :
  (forall a c p, (a, c, p) ∈ comps -> a <> 0 -> 0 < c < a) ->
  forall fuel l, 0 < l < fuel -> updateComponent fuel comps l = true.
Proof.
  intros Hd. induction fuel as [|fuel IH]; intros l Hl; [ lia | ].
  simpl. apply forallb_forall. intros c Hc.
  apply list_elem_of_In, elem_of_component_refs in Hc as [p Hin].
  apply IH. specialize (Hd l c p Hin). lia.
Qed.

Lemma UpdateAssemblies_descend (d : doc) :
  (forall a c p, (a, c, p) ∈ doc_components d ->
                 0 < c < doc_labels d /\ (a <> 0 -> c < a)) ->
  UpdateAssemblies d = Ok (rebuild_assemblies d).
Proof.
  intros Hc. unfold UpdateAssemblies.
  rewrite (proj2 (forallb_forall _ _)); [ reflexivity | ].
  intros l _. simpl. apply forallb_forall. intros c Hin.
  apply list_elem_of_In, elem_of_component_refs in Hin as [p Hin].
  destruct (Hc l c p Hin) as [Hb _].
  apply updateComponent_descend; [ | lia ].
  intros a c' p' Hin' Ha. destruct (Hc a c' p' Hin') as [? Hlt].
  specialize (Hlt Ha). lia.
Qed.

(** A label that is a component of itself stops no descent. *)
Lemma updateComponent_self
    (comps : list (TDF_Label * TDF_Label * TopLoc_Location)) l p :
  (l, l, p) ∈ comps -> forall fuel, updateComponent fuel comps l = false.
Proof.
  intros Hin. induction fuel as [|fuel IH]; [ reflexivity | ].
  simpl. apply not_true_is_false. intros Hall.
  rewrite forallb_forall in Hall. specialize (Hall l). rewrite IH in Hall.
  assert (false = true) by (apply Hall, list_elem_of_In, elem_of_component_refs; eauto).
  discriminate.
Qed.

Lemma UpdateAssemblies_self (d : doc) l p q :
  0 < doc_labels d ->
  (forall a c p, (a, c, p) ∈ doc_components d -> 0 < c) ->
  (0, l, p) ∈ doc_components d ->
  (l, l, q) ∈ doc_components d ->
  UpdateAssemblies d = Crash.
Proof.
  intros Hpos Hc Hroot Hself. unfold UpdateAssemblies.
  destruct (forallb _ (free_labels d)) eqn:E; [ | reflexivity ].
  rewrite forallb_forall in E. specialize (E 0).
  assert (Hfree : 0 ∈ free_labels d).
  { unfold free_labels. apply list_elem_of_filter. split.
    - intros Hin. apply list_elem_of_fmap in Hin as ([[a c] p'] & Hz & Hin).
      simpl in Hz. subst c. specialize (Hc a 0 p' Hin). lia.
    - apply elem_of_seq. lia. }
  apply list_elem_of_In in Hfree. specialize (E Hfree). simpl in E.
  rewrite forallb_forall in E. specialize (E l).
  rewrite (updateComponent_self _ l q Hself) in E.
  assert (false = true) by (apply E, list_elem_of_In, elem_of_component_refs; eauto).
  discriminate.
Qed.

(** Labels of the dictionary and of the components stay within the labels
    created, no component refers to the root label, and, where no node has a
    child under its own name, every component refers to a smaller label. *)
Lemma toCAF_loop_bounds flag fuel pairs : forall (s s' : dict) (d d' : doc),
  0 < doc_labels d ->
  dict_bounded (doc_labels d) s ->
  components_bounded (doc_labels d) (doc_components d) ->
  loop flag fuel pairs s d = Ok (s', d') ->
  0 < doc_labels d' /\
  dict_bounded (doc_labels d') s' /\
  components_bounded (doc_labels d') (doc_components d') /\
  (no_self_child objs pairs ->
   components_descend (doc_components d) ->
   components_descend (doc_components d')).
Proof.
  induction pairs as [|[k v] pairs IH]; intros s s' d d' Hpos Hs Hc H; simpl in H.
  - injection H as <- <-. auto.
  - destruct (body flag fuel k v s d) as [[s1 d1]| | |] eqn:Eb; simpl in H;
      try discriminate.
    apply toCAF_body_Ok in Eb as (c0 & comps & _ & Hs1 & HF & Hd1).
    assert (Hs1b : dict_bounded (doc_labels d1) s1).
    { intros key entry Hk. subst s1 d1. simpl.
      destruct (decide (k = key)) as [<-|Hne].
      - rewrite lookup_insert_eq in Hk. injection Hk as <-. simpl. lia.
      - rewrite lookup_insert_ne in Hk by exact Hne.
        specialize (Hs key entry Hk). lia. }
    assert (Hlab : doc_labels d1 = S (S (doc_labels d))) by (subst d1; reflexivity).
    assert (Hcomps : forall a c p, (a, c, p) ∈ comps ->
              a = S (doc_labels d) /\ exists ch entry,
                ch ∈ children (objs v) /\ s1 !! name (objs ch) = Some entry /\
                c = entry.1).
    { intros a c p Hin. apply list_elem_of_lookup in Hin as [x Hx].
      destruct (Forall2_lookup_r _ _ _ _ _ HF Hx) as (ch & Hch & entry & He & Hcomp).
      injection Hcomp as -> -> _. split; [ reflexivity | ].
      exists ch, entry. split_and!; [ | exact He | reflexivity ].
      apply list_elem_of_lookup. eauto. }
    assert (Hd1c : doc_components d1
                   = doc_components d ++
                     (S (doc_labels d), doc_labels d, TopLoc_Location_new) :: comps)
      by (subst d1; reflexivity).
    destruct (IH s1 s' d1 d') as (Hpos' & Hs' & Hc' & Hdesc');
      [ lia | exact Hs1b | | exact H | ].
    { intros a c p Hin. rewrite Hd1c in Hin. rewrite Hlab.
      apply elem_of_app in Hin as [Hin|Hin].
      - specialize (Hc a c p Hin). lia.
      - apply elem_of_cons in Hin as [Hin|Hin].
        + injection Hin as -> -> _. lia.
        + destruct (Hcomps a c p Hin) as (-> & ch & entry & _ & He & ->).
          specialize (Hs1b _ _ He). lia. }
    split_and!; [ exact Hpos' | exact Hs' | exact Hc' | ].
    intros Hno Hdesc. apply Hdesc'.
    + intros k' v' ch Hin. apply (Hno k' v' ch). right. exact Hin.
    + intros a c p Hin. rewrite Hd1c in Hin.
      apply elem_of_app in Hin as [Hin|Hin]; [ exact (Hdesc a c p Hin) | ].
      apply elem_of_cons in Hin as [Hin|Hin].
      * injection Hin as -> -> _. lia.
      * destruct (Hcomps a c p Hin) as (-> & ch & entry & Hch & He & ->).
        rewrite Hs1 in He. rewrite lookup_insert_ne in He.
        -- specialize (Hs _ _ He). lia.
        -- intros Heq. apply (Hno k v ch); [ left | exact Hch | congruence ].
Qed.

Lemma root_doc_bounds :
  0 < doc_labels (root_doc : doc) /\
  dict_bounded (doc_labels (root_doc : doc)) (∅ : dict) /\
  components_bounded (doc_labels (root_doc : doc)) (doc_components (root_doc : doc)).
Proof.
  split_and!.
  - simpl. lia.
  - intros key entry Hk. rewrite lookup_empty in Hk. discriminate.
  - intros a c p Hin. apply elem_of_nil in Hin. destruct Hin.
Qed.

(** The conversion returns on a convertible input. *)
Lemma toCAF_returns_convertible assy flag fuel :
  convertible objs assy flag fuel ->
  exists docu,
    toCAF TopLoc_Location_new makeCompound objs assy flag fuel = Ok (0, docu).
Proof.
  intros (Hrec & Hroot & Hno & Hwalk). rewrite toCAF_unfold.
  destruct (toCAF_loop_returns_when flag fuel (traverse (objs assy)) ∅ root_doc)
    as (s & d & E).
  { intros k v Hin. unfold resolved_color. destruct flag; [ | eauto ].
    apply inherit_color_returns_iff. apply (Hwalk eq_refl k). exact Hin. }
  { intros i k v ch Hi Hin. right. eapply Hrec; eauto. }
  rewrite E. simpl.
  assert (Hsome : is_Some (s !! name (objs assy))).
  { rewrite (toCAF_loop_dict_dom _ _ _ _ _ _ _ (name (objs assy)) E). auto. }
  destruct Hsome as [entry He]. rewrite He.
  destruct root_doc_bounds as (Hpos0 & Hs0 & Hc0).
  destruct (toCAF_loop_bounds _ _ _ _ _ _ _ Hpos0 Hs0 Hc0 E) as (Hpos & Hs & Hc & Hdesc).
  assert (Hd : components_descend (doc_components d)).
  { apply Hdesc; [ exact Hno | ].
    intros a c p Hin. apply elem_of_nil in Hin. destruct Hin. }
  rewrite UpdateAssemblies_descend; [ simpl; eauto | ].
  intros a c p Hin. simpl in Hin. simpl.
  apply elem_of_app in Hin as [Hin|Hin].
  - specialize (Hc a c p Hin). specialize (Hd a c p Hin). lia.
  - apply list_elem_of_singleton in Hin. injection Hin as -> -> _.
    specialize (Hs _ _ He). split; [ lia | intros Hne; congruence ].
Qed.

(** ** Colours *)

(** C1: with [coloredSTEP=True], take a yielded node without a colour of
    its own whose nearest coloured ancestor, [S n] levels up the parent
    references, has colour [c].  The walk up the parents returns [c] once
    the loop may take [S n] steps; every document the conversion returns has
    [c] on the node's part label and no colour on its assembly label; and on
    a convertible input the conversion does return such a document. *)
Theorem toCAF_coloredSTEP_inherits assy fuel i k v n a c :
  traverse (objs assy) !! i = Some (k, v) ->
  color (objs v) = None ->
  nearest_colored objs v (S n) a c ->
  S n <= fuel ->
  inherit_color objs fuel (color (objs v)) v = Ok (Some c) /\
  (forall top (docu : doc),
     toCAF TopLoc_Location_new makeCompound objs assy true fuel = Ok (top, docu) ->
     doc_colors docu !! part_label i = Some (Color_wrapped c) /\
     doc_colors docu !! assy_label i = None) /\
  (convertible objs assy true fuel ->
   exists docu : doc,
     toCAF TopLoc_Location_new makeCompound objs assy true fuel = Ok (0, docu) /\
     doc_colors docu !! part_label i = Some (Color_wrapped c) /\
     doc_colors docu !! assy_label i = None).
Proof.
  intros Hi _ Hnear Hfuel.
  assert (Hwalk : inherit_color objs fuel (color (objs v)) v = Ok (Some c)).
  { rewrite (inherit_color_nearest _ _ _ _ _ Hnear).
    case_decide; [ reflexivity | lia ]. }
  assert (Hcolors : forall top (docu : doc),
            toCAF TopLoc_Location_new makeCompound objs assy true fuel = Ok (top, docu) ->
            doc_colors docu !! part_label i = Some (Color_wrapped c) /\
            doc_colors docu !! assy_label i = None).
  { intros top docu H.
    destruct (toCAF_node _ _ _ _ _ _ _ _ H Hi)
      as (c0 & _ & _ & _ & Hc0 & _ & _ & _ & _ & Hcol & Hnocol & _).
    unfold resolved_color in Hc0. simpl in Hcol, Hnocol.
    rewrite Hwalk in Hc0. injection Hc0 as <-. auto. }
  split_and!; [ exact Hwalk | exact Hcolors | ].
  intros Hconv. destruct (toCAF_returns_convertible _ _ _ Hconv) as [docu H].
  exists docu. split; [ exact H | ]. apply (Hcolors 0 docu H).
Qed.

(** C2: with [coloredSTEP=False], the colour of a yielded node's assembly
    label is the node's own colour and nothing else (none when the node has
    none, whatever its ancestors have), and its part label has no colour. *)
Theorem toCAF_plain_own_color assy fuel top (docu : doc) i k v :
  toCAF TopLoc_Location_new makeCompound objs assy false fuel = Ok (top, docu) ->
  traverse (objs assy) !! i = Some (k, v) ->
  doc_colors docu !! assy_label i = Color_wrapped <$> color (objs v) /\
  doc_colors docu !! part_label i = None.
Proof.
  intros H Hi.
  destruct (toCAF_node _ _ _ _ _ _ _ _ H Hi)
    as (c0 & _ & _ & _ & Hc0 & _ & _ & _ & _ & Hcol & Hnocol & _).
  unfold resolved_color in Hc0. injection Hc0 as <-. auto.
Qed.

(** ** Components *)


(** C9: when the conversion reaches a child whose name is not among the
    names recorded so far (the nodes yielded before were processed, the
    children before it were found), it stops there with a [KeyError] for that
    name instead of going on. *)
Theorem toCAF_missing_child assy flag fuel pre k v post chs1 ch chs2 :
  traverse (objs assy) = pre ++ (k, v) :: post ->
  children_recorded objs pre ->
  (flag = true ->
   forall k' v', (k', v') ∈ pre ++ [(k, v)] -> reaches_root objs fuel v') ->
  children (objs v) = chs1 ++ ch :: chs2 ->
  (forall x, x ∈ chs1 -> name (objs x) ∈ (pre ++ [(k, v)]).*1) ->
  name (objs ch) ∉ (pre ++ [(k, v)]).*1 ->
  toCAF TopLoc_Location_new makeCompound objs assy flag fuel
  = Raise (KeyError (name (objs ch))).
Proof.
  intros Htrav Hrec Hwalk Hchs Hfound Hmissing.
  rewrite toCAF_unfold, Htrav, toCAF_loop_app.
  destruct (toCAF_loop_returns flag fuel pre ∅ root_doc) as (s1 & d1 & E1).
  { intros Hf k' v' Hin. apply (Hwalk Hf k'). apply elem_of_app. auto. }
  { intros i k' v' x Hi Hx. right. eapply Hrec; eauto. }
  rewrite E1. simpl.
  destruct (resolved_color_returns flag fuel v) as [c Hc].
  { intros Hf. apply (Hwalk Hf k). apply elem_of_app. right. left. }
  rewrite fmap_app in Hfound, Hmissing. simpl in Hfound, Hmissing.
  rewrite (toCAF_body_missing flag fuel k v s1 d1 c chs1 ch chs2 Hc Hchs).
  - reflexivity.
  - intros x Hx. specialize (Hfound x Hx).
    apply elem_of_app in Hfound as [Hin|Hin].
    + left. rewrite (toCAF_loop_dict_dom _ _ _ _ _ _ _ _ E1). auto.
    + right. apply list_elem_of_singleton in Hin. exact Hin.
  - apply eq_None_not_Some. intros Hs.
    rewrite (toCAF_loop_dict_dom _ _ _ _ _ _ _ _ E1) in Hs.
    destruct Hs as [[x Hx]|Hin].
    + rewrite lookup_empty in Hx. discriminate.
    + apply Hmissing, elem_of_app. auto.
  - intros Heq. apply Hmissing. rewrite Heq. apply elem_of_app. right. left.
Qed.

(** ** Labels *)

Lemma label_cases N l :
  l < 2 * N + 1 ->
  l = 0 \/ exists i, i < N /\ (l = part_label i \/ l = assy_label i).
Proof.
  intros Hl. destruct l as [|l]; [ auto | right ].
  exists (l / 2). unfold part_label, assy_label.
  pose proof (Nat.div_mod_eq l 2) as Hdm.
  pose proof (Nat.mod_upper_bound l 2) as Hub.
  lia.
Qed.

(** C8: a conversion of a traversal with [N] pairs hands out [2 * N + 1]
    labels: the root label, named "CQ assembly", and for the [i]-th pair
    [(k, v)] a part label named [k] followed by "_part" that holds the
    compound of [v]'s own shapes and an assembly label named [k].  Every
    label is one of these, and every label holds a shape. *)
Theorem toCAF_labels assy flag fuel top (docu : doc) :
  toCAF TopLoc_Location_new makeCompound objs assy flag fuel = Ok (top, docu) ->
  let N := length (traverse (objs assy)) in
  doc_labels docu = 2 * N + 1 /\
  (top = 0 /\ doc_names docu !! top = Some "CQ assembly") /\
  (forall i k v, traverse (objs assy) !! i = Some (k, v) ->
     doc_names docu !! part_label i = Some (k +:+ "_part") /\
     doc_shapes docu !! part_label i
       = Some (Compound_wrapped (makeCompound (shapes (objs v)))) /\
     doc_names docu !! assy_label i = Some k) /\
  (forall l, l < doc_labels docu ->
     l = top \/ exists i, i < N /\ (l = part_label i \/ l = assy_label i)) /\
  (forall l, l < doc_labels docu -> is_Some (doc_shapes docu !! l)).
Proof.
  intros H N.
  pose proof (toCAF_Ok_inv _ _ _ _ _ H) as (s & d & entry & Hloop & _ & -> & Hd).
  pose proof (toCAF_loop_Ok _ _ _ _ _ _ _ Hloop) as (Hlab & Hold & _).
  destruct (Hold 0) as (Hn0 & Hs0 & _); [ simpl; lia | ].
  assert (Hlabels : doc_labels docu = 2 * N + 1).
  { subst docu. simpl in *. fold N in Hlab. lia. }
  split_and!.
  - exact Hlabels.
  - reflexivity.
  - subst docu. simpl. rewrite Hn0. apply lookup_insert_eq.
  - intros i k v Hi.
    destruct (toCAF_node _ _ _ _ _ _ _ _ H Hi)
      as (_ & _ & _ & _ & _ & Hnp & Hna & Hsp & _).
    auto.
  - intros l Hl. apply label_cases. lia.
  - intros l Hl. destruct (label_cases N l) as [->|(i & Hi & Hcase)]; [ lia | | ].
    + rewrite Hd, rebuild_assemblies_shape. unfold AddComponent.
      cbn [doc_shapes]. rewrite Hs0. simpl. rewrite lookup_insert_eq. simpl. eauto.
    + destruct (lookup_lt_is_Some_2 (traverse (objs assy)) i Hi) as [[k v] Hkv].
      destruct (toCAF_node _ _ _ _ _ _ _ _ H Hkv)
        as (_ & _ & _ & _ & _ & _ & _ & Hsp & Hsa & _).
      destruct Hcase as [->| ->]; [ rewrite Hsp; eauto | exact Hsa ].
Qed.

End ConverterFacts.

(** * Further properties of [Color] *)

Section ColorMore.

Variable palette : string -> option Quantity_ColorRGBA.
Variable default_rgba : Quantity_ColorRGBA.

Lemma as_real_Raise v e : as_real v = Raise e -> e = TypeError.
Proof.
  destruct v as [|z|f|s]; simpl; try congruence.
  destruct (binary_normalize prec emax z 0 false); congruence.
Qed.

Lemma Quantity_ColorRGBA_new_Raise r g b a e :
  Quantity_ColorRGBA_new r g b a = Raise e ->
  e = TypeError \/ e = Standard_OutOfRange.
Proof.
  unfold Quantity_ColorRGBA_new.
  destruct (as_real r) eqn:Er; simpl;
    [ | intros [= <-]; eauto using as_real_Raise | discriminate | discriminate ].
  destruct (as_real g) eqn:Eg; simpl;
    [ | intros [= <-]; eauto using as_real_Raise | discriminate | discriminate ].
  destruct (as_real b) eqn:Eb; simpl;
    [ | intros [= <-]; eauto using as_real_Raise | discriminate | discriminate ].
  destruct (as_real a) eqn:Ea; simpl;
    [ | intros [= <-]; eauto using as_real_Raise | discriminate | discriminate ].
  destruct (Quantity_ColorValidateRgbRange _ _ _); [ discriminate | ].
  intros [= <-]. auto.
Qed.

Lemma SetAlpha_Raise c a e : SetAlpha c a = Raise e -> e = TypeError.
Proof.
  unfold SetAlpha. destruct (as_real a) eqn:Ea; simpl;
    [ discriminate | intros [= <-]; eauto using as_real_Raise
    | discriminate | discriminate ].
Qed.

(** X1: the unsupported-arguments error is raised exactly when the number of
    positional arguments is not 1, 3 or 4; with 1, 3 or 4 arguments the
    constructor never raises it, whatever their values. *)
Theorem Color_unsupported_iff (args : list PyVal) (kwargs : gmap string PyVal) :
  (exists a k, Color_init palette default_rgba args kwargs
               = Raise (ValueError (Unsupported_arguments a k)))
  <-> (length args <> 1 /\ length args <> 3 /\ length args <> 4).
Proof.
  split.
  - intros (a & k & H).
    destruct args as [|a0 [|a1 [|a2 [|a3 [|a4 rest]]]]]; simpl; try lia;
      exfalso; simpl in H.
    + unfold ColorFromName_s in H. destruct a0; try discriminate H.
      destruct (palette s); discriminate H.
    + destruct (Quantity_ColorRGBA_new a0 a1 a2 (PyInt 1)) as [w|e| |] eqn:E;
        simpl in H; try discriminate H.
      * destruct (truthy (kwargs_get kwargs "a")); try discriminate H.
        destruct (SetAlpha w (kwargs_get kwargs "a")) as [w'|e| |] eqn:E';
          simpl in H; try discriminate H.
        apply SetAlpha_Raise in E'. congruence.
      * apply Quantity_ColorRGBA_new_Raise in E as [E|E]; congruence.
    + destruct (Quantity_ColorRGBA_new a0 a1 a2 a3) as [w|e| |] eqn:E;
        simpl in H; try discriminate H.
      apply Quantity_ColorRGBA_new_Raise in E as [E|E]; congruence.
  - intros (H1 & H3 & H4). exists args, kwargs.
    destruct args as [|a0 [|a1 [|a2 [|a3 [|a4 rest]]]]]; simpl in *;
      try reflexivity; congruence.
Qed.

(** X2: the three-value form with a keyword [a] constructs exactly the
    colours the four-value form constructs from the same channels and [a]
    when [a] is true, or with alpha 1 when [a] is absent or false; the two
    return on the same inputs.  (When they fail they may fail differently:
    a channel out of range is met before a keyword that is not a number in
    the one, after it in the other.) *)
Theorem Color_keyword_alpha_as_fourth (r g b : PyVal) (kwargs kwargs' : gmap string PyVal) c :
  Color_init palette default_rgba [r; g; b] kwargs = Ok c <->
  Color_init palette default_rgba
    [r; g; b;
     if truthy (kwargs_get kwargs "a") then kwargs_get kwargs "a" else PyInt 1]
    kwargs' = Ok c.
Proof.
  unfold Color_init, Quantity_ColorRGBA_new, SetAlpha.
  rewrite as_real_1. simpl. rewrite to_binary32_1.
  destruct (truthy (kwargs_get kwargs "a"));
    destruct (as_real r) as [r'| | |], (as_real g) as [g'| | |],
             (as_real b) as [b'| | |]; simpl; try tauto.
  destruct (as_real (kwargs_get kwargs "a")) as [a'| | |]; simpl;
    destruct (Quantity_ColorValidateRgbRange _ _ _); simpl;
    split; congruence.
Qed.

(** X4: keyword arguments are ignored by the name form and by the four-value
    form, and the three-value form reads no keyword other than [a]. *)
Theorem Color_kwargs_only_alpha (args : list PyVal) (kw1 kw2 : gmap string PyVal) :
  (length args = 1 \/ length args = 4 ->
     Color_init palette default_rgba args kw1
     = Color_init palette default_rgba args kw2) /\
  (length args = 3 -> kw1 !! "a" = kw2 !! "a" ->
     Color_init palette default_rgba args kw1
     = Color_init palette default_rgba args kw2).
Proof.
  split.
  - intros H.
    destruct args as [|a0 [|a1 [|a2 [|a3 [|a4 rest]]]]]; simpl in H; try lia;
      reflexivity.
  - intros H Ha.
    destruct args as [|a0 [|a1 [|a2 [|a3 rest]]]]; simpl in H; try lia.
    unfold Color_init, kwargs_get. rewrite Ha. reflexivity.
Qed.


End ColorMore.

(** * Further properties of [toCAF] *)

Section ConverterMore.

Context {TopLoc_Location TopoDS_Shape Shape : Type}.
Context `{!ShapeKernel TopLoc_Location TopoDS_Shape}.
Variable TopLoc_Location_new : TopLoc_Location.
Variable makeCompound : list Shape -> @Compound TopoDS_Shape.
Variable objs : ref -> @AssemblyProtocol TopLoc_Location Shape.

Local Abbreviation doc := (@TDocStd_Document TopLoc_Location TopoDS_Shape).
Local Abbreviation dict := (gmap string (TDF_Label * @Location TopLoc_Location)).
Local Abbreviation body := (toCAF_body TopLoc_Location_new makeCompound objs).
Local Abbreviation loop := (toCAF_loop TopLoc_Location_new makeCompound objs).

(** ** More on the ancestor walk *)

(** A colour the walk returns is the colour of the nearest coloured node of
    the chain, found within the fuel. *)
Lemma inherit_color_Some fuel : forall v c,
  inherit_color objs fuel (color (objs v)) v = Ok (Some c) ->
  exists n a, n <= fuel /\ nearest_colored objs v n a c.
Proof.
  induction fuel as [|fuel IH]; intros v c; rewrite inherit_color_eq.
  - destruct (color (objs v)) as [c0|] eqn:Ec.
    + intros [= ->]. exists 0, v. split; [ lia | ].
      split_and!; [ reflexivity | exact Ec | intros m b Hm; lia ].
    + destruct (parent (objs v)); discriminate.
  - destruct (color (objs v)) as [c0|] eqn:Ec.
    + intros [= ->]. exists 0, v. split; [ lia | ].
      split_and!; [ reflexivity | exact Ec | intros m b Hm; lia ].
    + destruct (parent (objs v)) as [p|] eqn:Ep; [ | discriminate ].
      intros H. apply IH in H as (n & a & Hle & Ha & Hc & Hnone).
      exists (S n), a. split; [ lia | ]. split_and!.
      * simpl. rewrite Ep. exact Ha.
      * exact Hc.
      * intros m b Hm. destruct m as [|m]; simpl.
        { intros [= <-]. exact Ec. }
        rewrite Ep. apply Hnone. lia.
Qed.

Lemma uncolored_to_root_step v p n :
  parent (objs v) = Some p ->
  uncolored_to_root objs v (S n) -> uncolored_to_root objs p n.
Proof.
  intros Hp [(a & Ha & Hroot) Hnone]. simpl in Ha. rewrite Hp in Ha. split.
  - eauto.
  - intros m b Hm Hb. apply (Hnone (S m) b); [ lia | ].
    simpl. rewrite Hp. exact Hb.
Qed.

(** Up a chain that ends without a colour the walk returns no colour, after
    as many steps as the chain is long. *)
Lemma inherit_color_uncolored n : forall fuel v,
  uncolored_to_root objs v n ->
  inherit_color objs fuel (color (objs v)) v
  = if decide (n <= fuel) then Ok None else Diverge.
Proof.
  induction n as [|n IH]; intros fuel v Hunc.
  - destruct Hunc as [(a & Ha & Hroot) Hnone]. simpl in Ha. injection Ha as <-.
    rewrite inherit_color_eq, (Hnone 0 v), Hroot by (reflexivity || lia).
    case_decide; [ reflexivity | lia ].
  - pose proof Hunc as [(a & Ha & Hroot) Hnone].
    simpl in Ha. destruct (parent (objs v)) as [p|] eqn:Hp; [ | discriminate ].
    rewrite inherit_color_eq, (Hnone 0 v), Hp by (reflexivity || lia).
    destruct fuel as [|fuel].
    + case_decide; [ lia | reflexivity ].
    + rewrite (IH fuel p (uncolored_to_root_step _ _ _ Hp Hunc)).
      repeat case_decide; auto; lia.
Qed.

Lemma endless_uncolored_step v :
  endless_uncolored objs v ->
  color (objs v) = None /\
  exists p, parent (objs v) = Some p /\ endless_uncolored objs p.
Proof.
  intros H. split.
  - destruct (H 0) as (a & Ha & Hc). simpl in Ha. injection Ha as <-. exact Hc.
  - destruct (H 1) as (a & Ha & _). simpl in Ha.
    destruct (parent (objs v)) as [p|] eqn:Hp; [ | discriminate ].
    exists p. split; [ reflexivity | ].
    intros n. destruct (H (S n)) as (b & Hb & Hc). simpl in Hb.
    rewrite Hp in Hb. eauto.
Qed.

Lemma inherit_color_endless fuel : forall v,
  endless_uncolored objs v ->
  inherit_color objs fuel (color (objs v)) v = Diverge.
Proof.
  induction fuel as [|fuel IH]; intros v H;
    destruct (endless_uncolored_step v H) as (Hc & p & Hp & Hend);
    rewrite inherit_color_eq, Hc, Hp; [ reflexivity | apply IH, Hend ].
Qed.

(** ** Parts and colours *)

(** X5: the part label of every yielded node is a component of the node's
    assembly label, at the identity placement. *)
Theorem toCAF_part_instance assy flag fuel top (docu : doc) i k v :
  toCAF TopLoc_Location_new makeCompound objs assy flag fuel = Ok (top, docu) ->
  traverse (objs assy) !! i = Some (k, v) ->
  (assy_label i, part_label i, TopLoc_Location_new) ∈ doc_components docu.
Proof.
  intros H Hi.
  destruct (toCAF_node _ _ _ _ _ _ _ _ _ _ _ H Hi)
    as (_ & _ & _ & _ & _ & _ & _ & _ & _ & _ & _ & Hin & _).
  exact Hin.
Qed.

(** X6: with [coloredSTEP=True], a yielded node that has a colour of its own
    gets that colour on its part label, whatever its ancestors have and
    without any walk; its assembly label has no colour. *)
Theorem toCAF_coloredSTEP_own_color assy fuel top (docu : doc) i k v c :
  toCAF TopLoc_Location_new makeCompound objs assy true fuel = Ok (top, docu) ->
  traverse (objs assy) !! i = Some (k, v) ->
  color (objs v) = Some c ->
  doc_colors docu !! part_label i = Some (Color_wrapped c) /\
  doc_colors docu !! assy_label i = None.
Proof.
  intros H Hi Hc.
  destruct (toCAF_node _ _ _ _ _ _ _ _ _ _ _ H Hi)
    as (c0 & _ & _ & _ & Hc0 & _ & _ & _ & _ & Hcol & Hnocol & _).
  unfold resolved_color in Hc0. simpl in Hcol, Hnocol.
  rewrite inherit_color_eq, Hc in Hc0. injection Hc0 as <-. auto.
Qed.

(** X7: with [coloredSTEP=True], take a yielded node whose chain of parents
    ends [n] levels up without any colour, itself included.  The walk returns
    no colour once the loop may take [n] steps; every document the conversion
    returns has no colour on either label of the node; and on a convertible
    input the conversion does return such a document. *)
Theorem toCAF_coloredSTEP_uncolored assy fuel i k v n :
  traverse (objs assy) !! i = Some (k, v) ->
  uncolored_to_root objs v n ->
  n <= fuel ->
  inherit_color objs fuel (color (objs v)) v = Ok None /\
  (forall top (docu : doc),
     toCAF TopLoc_Location_new makeCompound objs assy true fuel = Ok (top, docu) ->
     doc_colors docu !! part_label i = None /\
     doc_colors docu !! assy_label i = None) /\
  (convertible objs assy true fuel ->
   exists docu : doc,
     toCAF TopLoc_Location_new makeCompound objs assy true fuel = Ok (0, docu) /\
     doc_colors docu !! part_label i = None /\
     doc_colors docu !! assy_label i = None).
Proof.
  intros Hi Hunc Hfuel.
  assert (Hwalk : inherit_color objs fuel (color (objs v)) v = Ok None).
  { rewrite (inherit_color_uncolored _ _ _ Hunc).
    case_decide; [ reflexivity | lia ]. }
  assert (Hcolors : forall top (docu : doc),
            toCAF TopLoc_Location_new makeCompound objs assy true fuel = Ok (top, docu) ->
            doc_colors docu !! part_label i = None /\
            doc_colors docu !! assy_label i = None).
  { intros top docu H.
    destruct (toCAF_node _ _ _ _ _ _ _ _ _ _ _ H Hi)
      as (c0 & _ & _ & _ & Hc0 & _ & _ & _ & _ & Hcol & Hnocol & _).
    unfold resolved_color in Hc0. simpl in Hcol, Hnocol.
    rewrite Hwalk in Hc0. injection Hc0 as <-. auto. }
  split_and!; [ exact Hwalk | exact Hcolors | ].
  intros Hconv. destruct (toCAF_returns_convertible TopLoc_Location_new makeCompound _ _ _ _ Hconv)
    as [docu H].
  exists docu. split; [ exact H | ]. apply (Hcolors 0 docu H).
Qed.

Lemma toCAF_fresh assy flag fuel top (docu : doc) :
  toCAF TopLoc_Location_new makeCompound objs assy flag fuel = Ok (top, docu) ->
  doc_fresh docu /\ doc_colors docu !! 0 = None.
Proof.
  intros H.
  apply toCAF_Ok_inv in H as (s & d & entry & Hloop & _ & _ & ->).
  pose proof (toCAF_loop_Ok _ _ _ _ _ _ _ _ _ _ Hloop) as (_ & Hold & _ & Hfr & _).
  split.
  - intros l Hl. destruct (Hfr root_doc_fresh l Hl) as (Hn & Hs & Hc).
    split_and!; [ exact Hn | | exact Hc ].
    rewrite rebuild_assemblies_shape. unfold AddComponent. cbn [doc_shapes].
    rewrite Hs. reflexivity.
  - destruct (Hold 0) as (_ & _ & Hc); [ simpl; lia | ].
    simpl. rewrite Hc. apply lookup_empty.
Qed.

(** X8: a document never holds a colour that is not in the tree, nor on a
    label that is not meant to carry one.  Every coloured label is the part
    label (with [coloredSTEP=True]) or the assembly label (with
    [coloredSTEP=False]) of a yielded node, and its colour is the colour of
    that node or, with [coloredSTEP=True] only, of one of its ancestors; the
    root label is never coloured. *)
Theorem toCAF_colors_origin assy flag fuel top (docu : doc) l q :
  toCAF TopLoc_Location_new makeCompound objs assy flag fuel = Ok (top, docu) ->
  doc_colors docu !! l = Some q ->
  l <> top /\
  exists i k v n a c,
    traverse (objs assy) !! i = Some (k, v) /\
    l = colored_label flag (part_label i) (assy_label i) /\
    nearest_colored objs v n a c /\
    q = Color_wrapped c /\
    (flag = false -> n = 0).
Proof.
  intros H Hq.
  pose proof (toCAF_fresh _ _ _ _ _ H) as [Hfr H0].
  pose proof (toCAF_Ok_inv _ _ _ _ _ _ _ _ H) as (s & d & entry & Hloop & _ & -> & Hd).
  pose proof (toCAF_loop_Ok _ _ _ _ _ _ _ _ _ _ Hloop) as (Hlab & _).
  assert (Hl : l < doc_labels docu).
  { destruct (Nat.lt_ge_cases l (doc_labels docu)) as [?|Hge]; [ assumption | ].
    destruct (Hfr l Hge) as (_ & _ & Hnone). congruence. }
  split; [ intros ->; congruence | ].
  assert (HN : doc_labels docu = 2 * length (traverse (objs assy)) + 1).
  { subst docu. simpl in *. lia. }
  rewrite HN in Hl.
  destruct (label_cases _ _ Hl) as [->|(i & Hi & Hcase)]; [ congruence | ].
  destruct (lookup_lt_is_Some_2 _ _ Hi) as [[k v] Hkv].
  destruct (toCAF_node _ _ _ _ _ _ _ _ _ _ _ H Hkv)
    as (c0 & _ & _ & _ & Hc0 & _ & _ & _ & _ & Hcol & Hnocol & _).
  assert (Hhere : l = colored_label flag (part_label i) (assy_label i)).
  { destruct flag, Hcase as [->| ->]; simpl in *; congruence. }
  rewrite Hhere, Hcol in Hq.
  destruct c0 as [c|]; [ | discriminate ]. injection Hq as <-.
  unfold resolved_color in Hc0. destruct flag.
  - apply inherit_color_Some in Hc0 as (n & a & _ & Hnear).
    exists i, k, v, n, a, c. split_and!; auto. discriminate.
  - injection Hc0 as Hc.
    exists i, k, v, 0, v, c. split_and!; auto.
    split_and!; [ reflexivity | exact Hc | intros m b Hm; lia ].
Qed.

(** ** Failing and returning *)

(** X9: when the name of the root object is not among the yielded names (in
    particular when nothing is yielded) and nothing fails earlier, the final
    lookup raises [KeyError] for the root's name. *)
Theorem toCAF_root_not_yielded assy flag fuel :
  name (objs assy) ∉ (traverse (objs assy)).*1 ->
  children_recorded objs (traverse (objs assy)) ->
  (flag = true ->
   forall k v, (k, v) ∈ traverse (objs assy) -> reaches_root objs fuel v) ->
  toCAF TopLoc_Location_new makeCompound objs assy flag fuel
    = Raise (KeyError (name (objs assy))).
Proof.
  intros Hroot Hrec Hwalk. rewrite toCAF_unfold.
  destruct (toCAF_loop_returns TopLoc_Location_new makeCompound objs flag fuel
              (traverse (objs assy)) ∅ root_doc Hwalk) as (s & d & E).
  { intros i k v ch Hi Hin. right. eapply Hrec; eauto. }
  rewrite E. simpl.
  destruct (s !! name (objs assy)) as [entry|] eqn:Es; [ | reflexivity ].
  exfalso.
  destruct (proj1 (toCAF_loop_dict_dom _ _ _ _ _ _ _ _ _ _ (name (objs assy)) E))
    as [[x Hx]|Hin]; [ eauto | | auto ].
  rewrite lookup_empty in Hx. discriminate.
Qed.

(** X11: with [coloredSTEP=True], a yielded node whose chain of parents has
    no end and no colour keeps the conversion from ever returning a
    document. *)
Theorem toCAF_never_returns assy i k v :
  traverse (objs assy) !! i = Some (k, v) ->
  endless_uncolored objs v ->
  forall fuel top (docu : doc), toCAF TopLoc_Location_new makeCompound objs assy true fuel
    <> Ok (top, docu).
Proof.
  intros Hi Hend fuel top docu H.
  destruct (toCAF_node _ _ _ _ _ _ _ _ _ _ _ H Hi)
    as (c0 & _ & _ & _ & Hc0 & _).
  unfold resolved_color in Hc0.
  rewrite (inherit_color_endless _ _ Hend) in Hc0. discriminate.
Qed.

(** ** The dictionary of recorded nodes *)

Lemma last_occurrence (pairs : list (string * ref)) key :
  key ∈ pairs.*1 ->
  exists pairs1 v pairs2,
    pairs = pairs1 ++ (key, v) :: pairs2 /\ key ∉ pairs2.*1.
Proof.
  induction pairs as [|[k v] pairs IH]; simpl; intros Hin.
  - apply elem_of_nil in Hin. destruct Hin.
  - destruct (decide (key ∈ pairs.*1)) as [Hlater|Hnot].
    + destruct (IH Hlater) as (p1 & w & p2 & -> & Hp2).
      exists ((k, v) :: p1), w, p2. auto.
    + apply elem_of_cons in Hin as [->|Hin]; [ | contradiction ].
      exists [], v, pairs. auto.
Qed.

(** X12: a child is looked up by name, and a name yielded more than once
    keeps the entry of its last pair: the component added for a child of the
    [i]-th node carries the assembly label and the placement of the last
    node yielded under the child's name at or before position [i]. *)
Theorem toCAF_child_last_entry assy flag fuel top (docu : doc) i k v ch :
  toCAF TopLoc_Location_new makeCompound objs assy flag fuel = Ok (top, docu) ->
  traverse (objs assy) !! i = Some (k, v) ->
  ch ∈ children (objs v) ->
  exists j v_j,
    j <= i /\
    traverse (objs assy) !! j = Some (name (objs ch), v_j) /\
    (forall j' k' v', j < j' -> j' <= i ->
       traverse (objs assy) !! j' = Some (k', v') -> k' <> name (objs ch)) /\
    (assy_label i, assy_label j, Location_wrapped (loc (objs v_j)))
      ∈ doc_components docu.
Proof.
  intros H Hi Hch.
  destruct (toCAF_node _ _ _ _ _ _ _ _ _ _ _ H Hi)
    as (_ & s_i & d_i & Hloop & _ & _ & _ & _ & _ & _ & _ & _ & Hwired).
  destruct (Hwired ch Hch) as (entry & He & Hin).
  pose proof (lookup_lt_Some _ _ _ Hi) as Hlt.
  assert (Hkey : name (objs ch) ∈ (take (S i) (traverse (objs assy))).*1).
  { destruct (proj1 (toCAF_loop_dict_dom _ _ _ _ _ _ _ _ _ _
                        (name (objs ch)) Hloop)) as [[x Hx]|Hk];
      [ eauto | | exact Hk ].
    rewrite lookup_empty in Hx. discriminate. }
  destruct (last_occurrence _ _ Hkey) as (p1 & v_j & p2 & Hsplit & Hp2).
  assert (Hlen : length p1 + S (length p2) = S i).
  { apply (f_equal length) in Hsplit.
    rewrite length_take_le, length_app in Hsplit by lia. simpl in Hsplit. lia. }
  rewrite Hsplit in Hloop.
  rewrite (toCAF_loop_dict_last _ _ _ _ _ _ _ _ _ _ _ _ _ Hloop Hp2) in He.
  injection He as <-.
  assert (Hat : forall j' x, take (S i) (traverse (objs assy)) !! j' = Some x ->
                  traverse (objs assy) !! j' = Some x).
  { intros j' x Hx. apply lookup_take_Some in Hx as [Hx _]. exact Hx. }
  exists (length p1), v_j. split_and!.
  - lia.
  - apply Hat. rewrite Hsplit. apply list_lookup_middle. reflexivity.
  - intros j' k' v' Hj1 Hj2 Hj' ->. apply Hp2.
    assert (Hx : take (S i) (traverse (objs assy)) !! j' = Some (name (objs ch), v')).
    { rewrite lookup_take_lt by lia. exact Hj'. }
    rewrite Hsplit, lookup_app_r in Hx by lia.
    destruct (j' - length p1) as [|x] eqn:Ex; [ lia | ]. simpl in Hx.
    apply list_elem_of_fmap. exists (name (objs ch), v'). split; [ reflexivity | ].
    apply list_elem_of_lookup. eauto.
  - exact Hin.
Qed.

(** A node's own entry is recorded before its children are looked up, so a
    child that carries the name its parent was yielded under is resolved to
    the parent: the parent's assembly label becomes a component of itself,
    with the parent's placement. *)
Lemma toCAF_loop_self_component flag fuel pairs (s : dict) (d : doc) i k v ch :
  loop flag fuel pairs ∅ root_doc = Ok (s, d) ->
  pairs !! i = Some (k, v) ->
  ch ∈ children (objs v) ->
  name (objs ch) = k ->
  (assy_label i, assy_label i, Location_wrapped (loc (objs v)))
    ∈ doc_components d.
Proof.
  intros Hloop Hi Hch Hname.
  pose proof (lookup_lt_Some _ _ _ Hi) as Hlt.
  rewrite <- (take_drop_middle _ _ _ Hi), toCAF_loop_app in Hloop.
  destruct (loop flag fuel (take i pairs) ∅ root_doc) as [[s1 d1]| | |] eqn:E1;
    simpl in Hloop; try discriminate.
  destruct (body flag fuel k v s1 d1) as [[s2 d2]| | |] eqn:Eb; simpl in Hloop;
    try discriminate.
  pose proof (toCAF_loop_Ok _ _ _ _ _ _ _ _ _ _ E1) as (Hlab1 & _).
  rewrite length_take_le in Hlab1 by lia. simpl in Hlab1.
  apply toCAF_body_Ok in Eb as (c & comps & _ & Hs2 & HF & Hd2).
  pose proof (toCAF_loop_Ok _ _ _ _ _ _ _ _ _ _ Hloop) as (_ & _ & [rest Hrest] & _).
  apply list_elem_of_lookup in Hch as [x Hx].
  destruct (Forall2_lookup_l _ _ _ _ _ HF Hx) as (comp & Hcomp & entry & He & ->).
  rewrite Hname, Hs2, lookup_insert_eq in He. injection He as <-.
  rewrite Hrest, Hd2. simpl.
  assert (Ha : S (doc_labels d1) = assy_label i) by (unfold assy_label; lia).
  simpl in Hcomp. rewrite Ha in Hcomp |- *.
  apply elem_of_app. left. apply elem_of_app. right. right.
  apply list_elem_of_lookup. exists x. exact Hcomp.
Qed.

(** X13: a child that carries the name its parent was yielded under makes
    the parent's assembly label a component of itself.  When this happens at
    the node recorded under the root's name, the final update of the
    assemblies descends from the root label into that label without end: the
    conversion neither returns nor raises, it crashes. *)
Theorem toCAF_child_named_as_parent assy flag fuel i v ch :
  children_recorded objs (traverse (objs assy)) ->
  (flag = true ->
   forall k' v', (k', v') ∈ traverse (objs assy) -> stops_within objs fuel v') ->
  traverse (objs assy) !! i = Some (name (objs assy), v) ->
  name (objs assy) ∉ (drop (S i) (traverse (objs assy))).*1 ->
  ch ∈ children (objs v) ->
  name (objs ch) = name (objs assy) ->
  toCAF TopLoc_Location_new makeCompound objs assy flag fuel = Crash.
Proof.
  intros Hrec Hwalk Hi Hlast Hch Hname. rewrite toCAF_unfold.
  destruct (toCAF_loop_returns_when TopLoc_Location_new makeCompound objs flag fuel
              (traverse (objs assy)) ∅ root_doc) as (s & d & E).
  { intros k' v' Hin. unfold resolved_color. destruct flag; [ | eauto ].
    apply inherit_color_returns_iff. apply (Hwalk eq_refl k'). exact Hin. }
  { intros j k' v' x Hj Hin. right. eapply Hrec; eauto. }
  rewrite E. simpl.
  pose proof (toCAF_loop_self_component _ _ _ _ _ _ _ _ _ E Hi Hch Hname) as Hself.
  pose proof E as E'.
  rewrite <- (take_drop_middle _ _ _ Hi) in E'.
  rewrite (toCAF_loop_dict_last _ _ _ _ _ _ _ _ _ _ _ _ _ E' Hlast).
  pose proof (lookup_lt_Some _ _ _ Hi) as Hlt.
  rewrite length_take_le by lia.
  change (S (doc_labels root_doc + 2 * i)) with (assy_label i). cbn [fst].
  destruct (root_doc_bounds (TopLoc_Location := TopLoc_Location)
              (TopoDS_Shape := TopoDS_Shape)) as (Hpos0 & Hs0 & Hc0).
  destruct (toCAF_loop_bounds _ _ _ _ _ _ _ _ _ _ Hpos0 Hs0 Hc0 E)
    as (Hpos & Hs & Hc & _).
  rewrite (UpdateAssemblies_self _ (assy_label i)
             (Location_wrapped (loc (objs assy))) (Location_wrapped (loc (objs v)))).
  - reflexivity.
  - simpl. exact Hpos.
  - intros a c p Hin. simpl in Hin. apply elem_of_app in Hin as [Hin|Hin].
    + destruct (Hc a c p Hin). lia.
    + apply list_elem_of_singleton in Hin. injection Hin as _ -> _.
      unfold assy_label. lia.
  - simpl. apply elem_of_app. right. left.
  - simpl. apply elem_of_app. left. exact Hself.
Qed.

(** ** The shape of the document *)

Lemma toCAF_loop_format flag fuel pairs : forall (s s' : dict) (d d' : doc),
  loop flag fuel pairs s d = Ok (s', d') -> doc_format d' = doc_format d.
Proof.
  induction pairs as [|[k v] pairs IH]; intros s s' d d' H; simpl in H.
  - injection H as <- <-. reflexivity.
  - destruct (body flag fuel k v s d) as [[s1 d1]| | |] eqn:Eb; simpl in H;
      try discriminate.
    apply toCAF_body_Ok in Eb as (c & comps & _ & _ & _ & ->).
    rewrite (IH _ _ _ _ H). reflexivity.
Qed.

Lemma toCAF_loop_components_length flag fuel pairs : forall (s s' : dict) (d d' : doc),
  loop flag fuel pairs s d = Ok (s', d') ->
  length (doc_components d')
  = length (doc_components d) + length pairs
    + sum_list_with (fun kv => length (children (objs kv.2))) pairs.
Proof.
  induction pairs as [|[k v] pairs IH]; intros s s' d d' H; simpl in H.
  - injection H as <- <-. simpl. lia.
  - destruct (body flag fuel k v s d) as [[s1 d1]| | |] eqn:Eb; simpl in H;
      try discriminate.
    apply toCAF_body_Ok in Eb as (c & comps & _ & _ & HF & ->).
    rewrite (IH _ _ _ _ H). simpl.
    rewrite length_app. simpl. rewrite (Forall2_length _ _ _ HF). lia.
Qed.

(** X14: a returned document holds one component per yielded node (its part),
    one per child of a yielded node, and one for the root instance. *)
Theorem toCAF_component_count assy flag fuel top (docu : doc) :
  toCAF TopLoc_Location_new makeCompound objs assy flag fuel = Ok (top, docu) ->
  length (doc_components docu)
  = length (traverse (objs assy))
    + sum_list_with (fun kv => length (children (objs kv.2))) (traverse (objs assy))
    + 1.
Proof.
  intros H.
  apply toCAF_Ok_inv in H as (s & d & entry & Hloop & _ & _ & ->).
  simpl. rewrite length_app, (toCAF_loop_components_length _ _ _ _ _ _ _ Hloop).
  simpl. lia.
Qed.

(** X15: in a returned document the labels that carry a name are exactly the
    labels that were created, no shape or colour sits on a label that was not
    created, the storage format is "XmlOcaf" and the assemblies have been
    updated. *)
Theorem toCAF_document_well_formed assy flag fuel top (docu : doc) :
  toCAF TopLoc_Location_new makeCompound objs assy flag fuel = Ok (top, docu) ->
  doc_format docu = "XmlOcaf" /\
  doc_updated docu = true /\
  (forall l, is_Some (doc_names docu !! l) <-> l < doc_labels docu) /\
  (forall l, is_Some (doc_shapes docu !! l) \/ is_Some (doc_colors docu !! l) ->
     l < doc_labels docu).
Proof.
  intros H.
  pose proof (toCAF_fresh _ _ _ _ _ H) as [Hfr _].
  pose proof (toCAF_Ok_inv _ _ _ _ _ _ _ _ H) as (s & d & entry & Hloop & _ & -> & Hd).
  pose proof (toCAF_loop_Ok _ _ _ _ _ _ _ _ _ _ Hloop) as (Hlab & Hold & _).
  pose proof (toCAF_loop_format _ _ _ _ _ _ _ Hloop) as Hfmt.
  assert (HN : doc_labels docu = 2 * length (traverse (objs assy)) + 1).
  { subst docu. simpl in *. lia. }
  split_and!.
  - subst docu. simpl. rewrite Hfmt. reflexivity.
  - subst docu. reflexivity.
  - intros l. split.
    + intros [x Hx].
      destruct (Nat.lt_ge_cases l (doc_labels docu)) as [?|Hge]; [ assumption | ].
      destruct (Hfr l Hge) as (Hn & _). congruence.
    + intros Hl. rewrite HN in Hl.
      destruct (label_cases _ _ Hl) as [->|(i & Hi & Hcase)].
      * destruct (Hold 0) as (Hn & _); [ simpl; lia | ].
        subst docu. simpl. rewrite Hn. simpl. rewrite lookup_insert_eq. eauto.
      * destruct (lookup_lt_is_Some_2 _ _ Hi) as [[k v] Hkv].
        destruct (toCAF_node _ _ _ _ _ _ _ _ _ _ _ H Hkv)
          as (_ & _ & _ & _ & _ & Hnp & Hna & _).
        destruct Hcase as [-> | ->]; eauto.
  - intros l Hsome.
    destruct (Nat.lt_ge_cases l (doc_labels docu)) as [?|Hge]; [ assumption | ].
    destruct (Hfr l Hge) as (_ & Hs & Hc).
    destruct Hsome as [[x Hx]|[x Hx]]; congruence.
Qed.

(** X16: every component of a returned document hangs the part or assembly
    label of a yielded node below an assembly label of a yielded node, except
    the last one, which hangs an assembly label below the root label.  So the
    root label is never a component, and a part label never has one. *)
Theorem toCAF_component_labels assy flag fuel top (docu : doc) :
  toCAF TopLoc_Location_new makeCompound objs assy flag fuel = Ok (top, docu) ->
  let N := length (traverse (objs assy)) in
  exists comps last_c p,
    doc_components docu = comps ++ [(top, last_c, p)] /\
    (exists i, i < N /\ last_c = assy_label i) /\
    component_labels N comps.
Proof.
  intros H N.
  apply toCAF_Ok_inv in H as (s & d & entry & Hloop & He & -> & ->).
  assert (Hs0 : dict_labels 0 (∅ : dict)).
  { intros key e Hk. rewrite lookup_empty in Hk. discriminate. }
  assert (Hc0 : component_labels 0 (doc_components (root_doc : doc))).
  { intros a c p Hin. apply elem_of_nil in Hin. destruct Hin. }
  destruct (toCAF_loop_structure TopLoc_Location_new makeCompound objs flag fuel
              (traverse (objs assy)) 0 ∅ s root_doc d eq_refl Hs0 Hc0 Hloop)
    as [Hs Hc].
  simpl in Hs, Hc.
  exists (doc_components d), entry.1, (Location_wrapped (loc (objs assy))).
  split_and!; [ reflexivity | exact (Hs _ _ He) | exact Hc ].
Qed.

(** ** What the flag and the parents change *)

Lemma add_children_same_but_colors subassy (s : dict) chs : forall (d1 d1' d2 : doc),
  add_children objs subassy s chs d1 = Ok d1' ->
  same_but_colors d1 d2 ->
  exists d2', add_children objs subassy s chs d2 = Ok d2' /\
              same_but_colors d1' d2'.
Proof.
  induction chs as [|ch chs IH]; intros d1 d1' d2 H Hsame; simpl in *.
  - injection H as <-. eauto.
  - destruct (s !! name (objs ch)) as [entry|]; [ | discriminate ].
    apply (IH _ _ _ H).
    destruct Hsame as (Hf & Hl & Hn & Hs & Hc & Hu).
    unfold same_but_colors. simpl. split_and!; congruence.
Qed.

Lemma toCAF_body_plain_of_colored fuel fuel' k v (s s' : dict) (d1 d1' d2 : doc) :
  body true fuel k v s d1 = Ok (s', d1') ->
  same_but_colors d1 d2 ->
  exists d2', body false fuel' k v s d2 = Ok (s', d2') /\
              same_but_colors d1' d2'.
Proof.
  intros H Hsame. unfold toCAF_body in *. simpl in *.
  destruct Hsame as (Hf & Hl & Hn & Hs & Hc & Hu).
  destruct (inherit_color objs fuel (color (objs v)) v) as [c| | |]; simpl in H;
    try discriminate.
  match type of H with rbind ?m _ = _ => destruct m as [d1a| | |] eqn:Ea end;
    simpl in H; try discriminate.
  injection H as <- <-.
  rewrite <- Hl.
  match goal with |- context [add_children objs ?a ?b ?c ?e] =>
    destruct (add_children_same_but_colors _ _ _ _ _ e Ea) as (d2' & -> & Hsame')
  end.
  - unfold same_but_colors.
    destruct c, (color (objs v)); simpl; split_and!; congruence.
  - simpl. eauto.
Qed.

Lemma toCAF_loop_plain_of_colored fuel fuel' pairs :
  forall (s s' : dict) (d1 d1' d2 : doc),
  loop true fuel pairs s d1 = Ok (s', d1') ->
  same_but_colors d1 d2 ->
  exists d2', loop false fuel' pairs s d2 = Ok (s', d2') /\
              same_but_colors d1' d2'.
Proof.
  induction pairs as [|[k v] pairs IH]; intros s s' d1 d1' d2 H Hsame; simpl in *.
  - injection H as <- <-. eauto.
  - destruct (body true fuel k v s d1) as [[s1 d1a]| | |] eqn:Eb; simpl in H;
      try discriminate.
    destruct (toCAF_body_plain_of_colored _ fuel' _ _ _ _ _ _ _ Eb Hsame)
      as (d2a & -> & Hsame').
    simpl. eapply IH; eauto.
Qed.

Lemma UpdateAssemblies_same_but_colors (d1 d1' d2 : doc) :
  UpdateAssemblies d1 = Ok d1' ->
  same_but_colors d1 d2 ->
  exists d2', UpdateAssemblies d2 = Ok d2' /\ same_but_colors d1' d2'.
Proof.
  intros H (Hf & Hl & Hn & Hs & Hc & Hu). revert H.
  unfold UpdateAssemblies, free_labels. rewrite <- Hl, <- Hc.
  destruct (forallb _ _); [ | discriminate ].
  intros H. injection H as <-. eexists. split; [ reflexivity | ].
  unfold same_but_colors, rebuild_assemblies. simpl.
  rewrite <- Hs, <- Hc. split_and!; congruence.
Qed.

Lemma toCAF_Ok_update assy flag fuel top (docu : doc) :
  toCAF TopLoc_Location_new makeCompound objs assy flag fuel = Ok (top, docu) ->
  exists (s : dict) (d : doc) entry,
    loop flag fuel (traverse (objs assy)) ∅ root_doc = Ok (s, d) /\
    s !! name (objs assy) = Some entry /\
    top = 0 /\
    UpdateAssemblies (AddComponent 0 entry.1 (Location_wrapped (loc (objs assy))) d)
    = Ok docu.
Proof.
  rewrite toCAF_unfold. intros H.
  destruct (loop flag fuel (traverse (objs assy)) ∅ root_doc) as [[s d]| | |];
    simpl in H; try discriminate.
  destruct (s !! name (objs assy)) as [entry|] eqn:E; try discriminate.
  destruct (UpdateAssemblies _) as [d'| | |] eqn:Eu; simpl in H; try discriminate.
  injection H as <- <-. exists s, d, entry. auto.
Qed.

(** X17: the flag changes colours and nothing else.  Whenever the conversion
    with [coloredSTEP=True] returns, the conversion with [coloredSTEP=False]
    returns as well, and the two documents have the same labels, names,
    shapes and components. *)
Theorem toCAF_flag_only_colors assy fuel fuel' top (docu : doc) :
  toCAF TopLoc_Location_new makeCompound objs assy true fuel = Ok (top, docu) ->
  exists docu',
    toCAF TopLoc_Location_new makeCompound objs assy false fuel' = Ok (top, docu') /\
    same_but_colors docu docu'.
Proof.
  intros H.
  apply toCAF_Ok_update in H as (s & d & entry & Hloop & He & -> & Hup).
  assert (Hroot : same_but_colors (root_doc : doc) root_doc)
    by (unfold same_but_colors; split_and!; reflexivity).
  destruct (toCAF_loop_plain_of_colored _ fuel' _ _ _ _ _ _ Hloop Hroot)
    as (d' & Hloop' & Hsame).
  destruct (UpdateAssemblies_same_but_colors _ _
              (AddComponent 0 entry.1 (Location_wrapped (loc (objs assy))) d') Hup)
    as (docu' & Hup' & Hsame').
  { destruct Hsame as (Hf & Hl & Hn & Hs & Hc & Hu).
    unfold same_but_colors. simpl. split_and!; congruence. }
  rewrite toCAF_unfold, Hloop'. simpl. rewrite He, Hup'. simpl.
  exists docu'. split; [ reflexivity | exact Hsame' ].
Qed.

Section OtherStore.

Variable objs' : ref -> @AssemblyProtocol TopLoc_Location Shape.
Hypothesis objs_agree : forall r, same_but_parent (objs r) (objs' r).

Lemma add_children_other_store subassy (s : dict) chs : forall d : doc,
  add_children objs subassy s chs d = add_children objs' subassy s chs d.
Proof.
  induction chs as [|ch chs IH]; intros d; simpl; [ reflexivity | ].
  destruct (objs_agree ch) as (_ & -> & _).
  destruct (s !! name (objs' ch)); [ apply IH | reflexivity ].
Qed.

Lemma toCAF_loop_other_store fuel fuel' pairs : forall (s : dict) (d : doc),
  loop false fuel pairs s d
  = toCAF_loop TopLoc_Location_new makeCompound objs' false fuel' pairs s d.
Proof.
  induction pairs as [|[k v] pairs IH]; intros s d; simpl; [ reflexivity | ].
  assert (Hb : body false fuel k v s d
               = toCAF_body TopLoc_Location_new makeCompound objs' false fuel' k v s d).
  { unfold toCAF_body. simpl.
    destruct (objs_agree v) as (-> & _ & -> & -> & -> & _).
    rewrite add_children_other_store. reflexivity. }
  rewrite Hb.
  destruct (toCAF_body TopLoc_Location_new makeCompound objs' false fuel' k v s d)
    as [[s1 d1]| | |]; simpl; [ apply IH | reflexivity | reflexivity | reflexivity ].
Qed.

(** X18: with [coloredSTEP=False] the conversion never reads a [parent]: two
    trees that differ only in their parent references give the same outcome,
    whether a document or an exception, and the outcome cannot be a walk that
    does not end. *)
Theorem toCAF_plain_ignores_parents assy fuel fuel' :
  toCAF TopLoc_Location_new makeCompound objs assy false fuel
  = toCAF TopLoc_Location_new makeCompound objs' assy false fuel' /\
  toCAF TopLoc_Location_new makeCompound objs assy false fuel <> Diverge.
Proof.
  split.
  - rewrite !toCAF_unfold.
    destruct (objs_agree assy) as (-> & -> & _ & _ & _ & ->).
    rewrite (toCAF_loop_other_store fuel fuel'). reflexivity.
  - rewrite toCAF_unfold.
    assert (Hloop : forall pairs (s : dict) (d : doc),
              loop false fuel pairs s d <> Diverge).
    { induction pairs as [|[k v] pairs IH]; intros s d; simpl; [ discriminate | ].
      unfold toCAF_body at 1. simpl.
      match goal with |- context [add_children objs ?a ?b ?c ?e] =>
        destruct (add_children objs a b c e) as [d1| | |] eqn:Ea end; simpl.
      - apply IH.
      - discriminate.
      - exfalso. revert Ea. clear.
        match goal with |- add_children _ ?a ?b ?c ?e = _ -> _ =>
          generalize e; generalize b; generalize a end.
        intros a b. induction (children (objs v)) as [|ch chs IHc]; intros e; simpl.
        + discriminate.
        + destruct (b !! name (objs ch)); [ apply IHc | discriminate ].
      - discriminate. }
    destruct (loop false fuel (traverse (objs assy)) ∅ root_doc) as [[s d]| | |] eqn:E;
      simpl.
    + destruct (s !! name (objs assy)); [ | discriminate ].
      unfold UpdateAssemblies. destruct (forallb _ _); discriminate.
    + discriminate.
    + destruct (Hloop _ _ _ E).
    + discriminate.
Qed.

End OtherStore.

(** ** When the conversion returns *)

(** X10: a conversion that returns a document was given a tree in which
    every child's name had been yielded by the time its parent was processed,
    the root object's name was yielded and, with [coloredSTEP=True], the walk
    from every yielded node meets a colour or the end of the chain within the
    fuel; and the conversion does return a document when, beyond these, no
    yielded node has a child under the node's own name. *)
Theorem toCAF_returns_conditions assy flag fuel :
  ((exists docu, toCAF TopLoc_Location_new makeCompound objs assy flag fuel = Ok (0, docu))
   -> children_recorded objs (traverse (objs assy)) /\
      name (objs assy) ∈ (traverse (objs assy)).*1 /\
      (flag = true ->
       forall k v, (k, v) ∈ traverse (objs assy) -> stops_within objs fuel v)) /\
  (convertible objs assy flag fuel ->
   exists docu, toCAF TopLoc_Location_new makeCompound objs assy flag fuel = Ok (0, docu)).
Proof.
  split.
  - intros [docu H]. split_and!.
    + intros i k v ch Hi Hch.
      destruct (toCAF_node _ _ _ _ _ _ _ _ _ _ _ H Hi)
        as (_ & s_i & d_i & Hloop & _ & _ & _ & _ & _ & _ & _ & _ & Hwired).
      destruct (Hwired ch Hch) as (entry & He & _).
      destruct (proj1 (toCAF_loop_dict_dom _ _ _ _ _ _ _ _ _ _
                          (name (objs ch)) Hloop)) as [[x Hx]|Hk];
        [ eauto | | exact Hk ].
      rewrite lookup_empty in Hx. discriminate.
    + apply toCAF_Ok_inv in H as (s & d & entry & Hloop & He & _).
      destruct (proj1 (toCAF_loop_dict_dom _ _ _ _ _ _ _ _ _ _
                          (name (objs assy)) Hloop)) as [[x Hx]|Hk];
        [ eauto | | exact Hk ].
      rewrite lookup_empty in Hx. discriminate.
    + intros -> k v Hin. apply list_elem_of_lookup in Hin as [i Hi].
      destruct (toCAF_node _ _ _ _ _ _ _ _ _ _ _ H Hi) as (c & _ & _ & _ & Hc & _).
      apply inherit_color_returns_iff. exists c. exact Hc.
  - apply toCAF_returns_convertible.
Qed.

End ConverterMore.

(** * The properties on the sample inputs *)

Section Samples.

Local Abbreviation convert := (toCAF "identity" list_compound).

(** The scenario of the two-level tree, converted without colour
    inheritance: the part label of "A" holds the box, the assembly label of
    "A" is red, and the root label receives the root's instance. *)
Example toCAF_pair_tree :
  exists docu,
    convert pair_tree 0 false 0 = Ok (0, docu) /\
    doc_names docu !! 0 = Some "CQ assembly" /\
    doc_names docu !! part_label 0 = Some "A_part" /\
    doc_shapes docu !! part_label 0 = Some ["box"] /\
    doc_names docu !! assy_label 0 = Some "A" /\
    doc_colors docu !! assy_label 0 = Some red_rgba /\
    doc_colors docu !! part_label 0 = None /\
    doc_components docu =
      [(assy_label 0, part_label 0, "identity");
       (assy_label 1, part_label 1, "identity");
       (assy_label 1, assy_label 0, "at_A");
       (0, assy_label 1, "at_R")].
Proof. eexists. split; [ vm_compute; reflexivity | ]. vm_compute. tauto. Qed.

(** Why the input contract asks for unique names: the entry of a child that
    shares its parent's name is overwritten before it is read, so the parent
    is wired below itself, and the final update of the assemblies never
    comes back. *)
Example toCAF_namesakes : convert namesakes 0 false 0 = Crash.
Proof. vm_compute. reflexivity. Qed.

(** A chain of parents that loops without meeting a colour keeps the walk
    running, whatever the fuel. *)
Example inherit_color_loops (fuel : nat) :
  inherit_color
    (fun _ => mkAssembly (mkLocation "here") "A" None ([] : list string) []
                (Some 0) [])
    fuel None 0 = Diverge.
Proof. induction fuel as [|fuel IH]; [ reflexivity | exact IH ]. Qed.

(** The tower is a convertible input. *)
Lemma tower_children_recorded : children_recorded tower (traverse (tower 0)).
Proof.
  intros i k v ch Hi Hch.
  destruct i as [|[|[|i]]]; simpl in Hi; [ | | | discriminate ];
    injection Hi as <- <-; simpl in Hch.
  - apply elem_of_nil in Hch. destruct Hch.
  - apply list_elem_of_singleton in Hch. subst ch. simpl. left.
  - apply list_elem_of_singleton in Hch. subst ch. simpl. right. left.
Qed.

Lemma tower_no_self_child : no_self_child tower (traverse (tower 0)).
Proof.
  intros k v ch Hin Hch. simpl in Hin.
  apply elem_of_cons in Hin as [Hin|Hin]; [ injection Hin as -> -> | ].
  { simpl in Hch. apply elem_of_nil in Hch. destruct Hch. }
  apply elem_of_cons in Hin as [Hin|Hin]; [ injection Hin as -> -> | ].
  { simpl in Hch. apply list_elem_of_singleton in Hch. subst ch. discriminate. }
  apply list_elem_of_singleton in Hin. injection Hin as -> ->.
  simpl in Hch. apply list_elem_of_singleton in Hch. subst ch. discriminate.
Qed.

Lemma tower_reaches_root k v :
  (k, v) ∈ traverse (tower 0) -> reaches_root tower 2 v.
Proof.
  simpl. intros Hin.
  apply elem_of_cons in Hin as [Hin|Hin]; [ injection Hin as -> -> | ].
  { exists 2, 0. split_and!; [ lia | reflexivity | reflexivity ]. }
  apply elem_of_cons in Hin as [Hin|Hin]; [ injection Hin as -> -> | ].
  { exists 1, 0. split_and!; [ lia | reflexivity | reflexivity ]. }
  apply list_elem_of_singleton in Hin. injection Hin as -> ->.
  exists 0, 0. split_and!; [ lia | reflexivity | reflexivity ].
Qed.

Lemma tower_convertible flag : convertible tower 0 flag 2.
Proof.
  split_and!.
  - exact tower_children_recorded.
  - simpl. right. right. left.
  - exact tower_no_self_child.
  - intros _ k v Hin.
    destruct (tower_reaches_root k v Hin) as (n & a & Hn & Ha & Hp).
    exists n, a. auto.
Qed.


Lemma Color_by_name_witness :
  sample_palette "red" = Some red_rgba /\
  sample_palette "reddish" = None /\
  Color_init sample_palette sample_default [PyStr "red"] ∅ = Ok (mkColor red_rgba) /\
  exists e,
    Color_init sample_palette sample_default [PyStr "reddish"] ∅ = Raise e /\
    UnknownColorError e.
Proof.
  split_and!.
  - reflexivity.
  - reflexivity.
  - apply (proj1 (Color_by_name sample_palette sample_default "red" ∅)).
    reflexivity.
  - apply (proj2 (Color_by_name sample_palette sample_default "reddish" ∅)).
    reflexivity.
Defined.



(** The channels 0.1, 0.2, 0.3 and 0.4 lie in [0, 1], and none of them reads
    back as it was given: the kernel keeps single precision. *)
Lemma Color_tenths_read_back_inexact :
  exists c,
    Color_init sample_palette sample_default
      [PyFloat 0x1.999999999999ap-4; PyFloat 0x1.999999999999ap-3;
       PyFloat 0x1.3333333333333p-2; PyFloat 0x1.999999999999ap-2] ∅ = Ok c /\
    Red (Color_wrapped c) = 0x1.99999ap-4%float /\
    Red (Color_wrapped c) <> 0x1.999999999999ap-4%float /\
    Green (Color_wrapped c) <> 0x1.999999999999ap-3%float /\
    Blue (Color_wrapped c) <> 0x1.3333333333333p-2%float /\
    Alpha (Color_wrapped c) <> 0x1.999999999999ap-2%float.
Proof.
  eexists. split; [ vm_compute; reflexivity | ]. simpl.
  split_and!; [ reflexivity | | | | ];
    intros H;
    match type of H with ?x = ?y =>
      assert (E : (x =? y)%float = (y =? y)%float) by (rewrite H; reflexivity)
    end;
    vm_compute in E; discriminate E.
Qed.

Lemma Color_rgba_round_trip_witness :
  Quantity_ColorValidateRgbRange (to_binary32 0.25) (to_binary32 0.5)
    (to_binary32 0.75) = true /\
  exists c,
    Color_init sample_palette sample_default
      [PyFloat 0.25; PyFloat 0.5; PyFloat 0.75; PyFloat 1] ∅ = Ok c /\
    Red (Color_wrapped c) = to_binary32 0.25 /\
    Green (Color_wrapped c) = to_binary32 0.5 /\
    Blue (Color_wrapped c) = to_binary32 0.75 /\
    Alpha (Color_wrapped c) = to_binary32 1 /\
    (to_binary32 0.25 = 0.25%float -> to_binary32 0.5 = 0.5%float ->
     to_binary32 0.75 = 0.75%float -> to_binary32 1 = 1%float ->
     Color_wrapped c = RGBA 0.25 0.5 0.75 1).
Proof.
  assert (Hrange : Quantity_ColorValidateRgbRange (to_binary32 0.25) (to_binary32 0.5)
                     (to_binary32 0.75) = true) by (vm_compute; reflexivity).
  split; [ exact Hrange | ].
  apply (Color_rgba_round_trip sample_palette sample_default 0.25 0.5 0.75 1 ∅ Hrange).
Defined.

Lemma Color_rgb_alpha_keyword_witness :
  Quantity_ColorValidateRgbRange (to_binary32 0.25) (to_binary32 0.5)
    (to_binary32 0.75) = true /\
  (({[ "a" := PyFloat 0 ]} : gmap string PyVal) !! "a" = Some (PyFloat 0)) /\
  (({[ "a" := PyFloat 0.5 ]} : gmap string PyVal) !! "a" = Some (PyFloat 0.5)) /\
  as_real (PyFloat 0.5) = Ok 0.5%float /\
  Color_init sample_palette sample_default
    [PyFloat 0.25; PyFloat 0.5; PyFloat 0.75] {[ "a" := PyFloat 0 ]}
  = Ok (mkColor (RGBA (to_binary32 0.25) (to_binary32 0.5) (to_binary32 0.75) 1)) /\
  Color_init sample_palette sample_default
    [PyFloat 0.25; PyFloat 0.5; PyFloat 0.75] {[ "a" := PyFloat 0.5 ]}
  = Ok (mkColor (RGBA (to_binary32 0.25) (to_binary32 0.5) (to_binary32 0.75)
                   (if truthy (PyFloat 0.5) then to_binary32 0.5 else 1%float))).
Proof.
  assert (Hrange : Quantity_ColorValidateRgbRange (to_binary32 0.25) (to_binary32 0.5)
                     (to_binary32 0.75) = true) by (vm_compute; reflexivity).
  split_and!.
  - exact Hrange.
  - vm_compute. reflexivity.
  - vm_compute. reflexivity.
  - reflexivity.
  - apply (proj1 (Color_rgb_alpha_keyword sample_palette sample_default
                    0.25 0.5 0.75 {[ "a" := PyFloat 0 ]} Hrange)).
    right. vm_compute. reflexivity.
  - apply (proj2 (Color_rgb_alpha_keyword sample_palette sample_default
                    0.25 0.5 0.75 {[ "a" := PyFloat 0.5 ]} Hrange)
             (PyFloat 0.5) 0.5%float).
    + vm_compute. reflexivity.
    + reflexivity.
Defined.

Lemma toCAF_coloredSTEP_inherits_witness :
  traverse (tower 0) !! 0 = Some ("B", 2) /\
  color (tower 2) = None /\
  nearest_colored tower 2 2 0 red /\
  2 <= 2 /\
  convertible tower 0 true 2 /\
  inherit_color tower 2 (color (tower 2)) 2 = Ok (Some red) /\
  (doc_colors tower_colored !! part_label 0 = Some red_rgba /\
   doc_colors tower_colored !! assy_label 0 = None) /\
  (exists docu,
     convert tower 0 true 2 = Ok (0, docu) /\
     doc_colors docu !! part_label 0 = Some red_rgba /\
     doc_colors docu !! assy_label 0 = None).
Proof.
  assert (Hrun : convert tower 0 true 2 = Ok (0, tower_colored))
    by (vm_compute; reflexivity).
  assert (Hnear : nearest_colored tower 2 2 0 red).
  { split_and!; [ reflexivity | reflexivity | ].
    intros m b Hm. destruct m as [|[|m]]; [ | | lia ]; simpl; intros [= <-];
      reflexivity. }
  assert (Hfuel : 2 <= 2) by lia.
  destruct (toCAF_coloredSTEP_inherits "identity" list_compound tower
              0 2 0 "B" 2 1 0 red eq_refl eq_refl Hnear Hfuel)
    as (Hwalk & Hcolors & Hreturns).
  split_and!;
    [ reflexivity | reflexivity | exact Hnear | exact Hfuel
    | exact (tower_convertible true) | exact Hwalk
    | apply (Hcolors 0 tower_colored Hrun)
    | apply (Hcolors 0 tower_colored Hrun)
    | exact (Hreturns (tower_convertible true)) ].
Defined.

Lemma toCAF_plain_own_color_witness :
  convert tower 0 false 0 = Ok (0, tower_plain) /\
  traverse (tower 0) !! 0 = Some ("B", 2) /\
  traverse (tower 0) !! 2 = Some ("R", 0) /\
  (doc_colors tower_plain !! assy_label 0 = None /\
   doc_colors tower_plain !! part_label 0 = None) /\
  (doc_colors tower_plain !! assy_label 2 = Some red_rgba /\
   doc_colors tower_plain !! part_label 2 = None).
Proof.
  assert (Hrun : convert tower 0 false 0 = Ok (0, tower_plain))
    by (vm_compute; reflexivity).
  split_and!; [ exact Hrun | reflexivity | reflexivity | .. ].
  - apply (toCAF_plain_own_color "identity" list_compound tower
             0 0 0 tower_plain 0 "B" 2 Hrun eq_refl).
  - apply (toCAF_plain_own_color "identity" list_compound tower
             0 0 0 tower_plain 0 "B" 2 Hrun eq_refl).
  - apply (toCAF_plain_own_color "identity" list_compound tower
             0 0 0 tower_plain 2 "R" 0 Hrun eq_refl).
  - apply (toCAF_plain_own_color "identity" list_compound tower
             0 0 0 tower_plain 2 "R" 0 Hrun eq_refl).
Defined.


(** In the converted tower "A" sits below "R" at the placement of "A", and
    nowhere at the placement of "R". *)
Example toCAF_tower_placements :
  (assy_label 2, assy_label 1, "at_A") ∈ doc_components tower_colored /\
  (assy_label 2, assy_label 1, "at_R") ∉ doc_components tower_colored.
Proof.
  split.
  - apply (bool_decide_unpack _). vm_compute. reflexivity.
  - apply (bool_decide_unpack _). vm_compute. reflexivity.
Qed.

Lemma toCAF_labels_witness :
  convert tower 0 true 2 = Ok (0, tower_colored) /\
  doc_labels tower_colored = 7 /\
  doc_names tower_colored !! 0 = Some "CQ assembly" /\
  (doc_names tower_colored !! part_label 1 = Some "A_part" /\
   doc_shapes tower_colored !! part_label 1 = Some ["box"] /\
   doc_names tower_colored !! assy_label 1 = Some "A") /\
  (forall l, l < doc_labels tower_colored ->
     is_Some (doc_shapes tower_colored !! l)).
Proof.
  assert (Hrun : convert tower 0 true 2 = Ok (0, tower_colored))
    by (vm_compute; reflexivity).
  destruct (toCAF_labels "identity" list_compound tower 0 true 2 0
              tower_colored Hrun) as (Hl & (_ & Hn) & Hnode & _ & Hshapes).
  split_and!; [ exact Hrun | exact Hl | exact Hn | .. | exact Hshapes ];
    apply (Hnode 1 "A" 1 eq_refl).
Defined.

Lemma toCAF_missing_child_witness :
  traverse (broken 0) = [("B", 2)] ++ ("R", 0) :: [] /\
  children_recorded broken [("B", 2)] /\
  children (broken 0) = [2] ++ 1 :: [] /\
  (forall x, x ∈ [2] -> name (broken x) ∈ ([("B", 2)] ++ [("R", 0)]).*1) /\
  (name (broken 1) ∉ ([("B", 2)] ++ [("R", 0)]).*1) /\
  convert broken 0 true 1 = Raise (KeyError "A").
Proof.
  assert (Hrec : children_recorded broken [("B", 2)]).
  { intros i k v ch Hi Hch.
    destruct i as [|i]; simpl in Hi; [ | discriminate ].
    injection Hi as <- <-. simpl in Hch. apply elem_of_nil in Hch. destruct Hch. }
  assert (Hfound : forall x, x ∈ [2] ->
            name (broken x) ∈ ([("B", 2)] ++ [("R", 0)]).*1).
  { intros x Hx. apply list_elem_of_singleton in Hx. subst x. simpl. left. }
  assert (Hmissing : name (broken 1) ∉ ([("B", 2)] ++ [("R", 0)]).*1).
  { simpl. intros Hin.
    apply elem_of_cons in Hin as [Hin|Hin]; [ discriminate Hin | ].
    apply list_elem_of_singleton in Hin. discriminate Hin. }
  split_and!;
    [ reflexivity | exact Hrec | reflexivity | exact Hfound | exact Hmissing | ].
  apply (toCAF_missing_child "identity" list_compound broken 0 true 1
           [("B", 2)] "R" 0 [] [2] 1 [] eq_refl Hrec).
  - intros _ k' v' Hin. simpl in Hin.
    apply elem_of_cons in Hin as [Hin|Hin].
    + injection Hin as -> ->. exists 1, 0. split_and!; [ lia | reflexivity | reflexivity ].
    + apply list_elem_of_singleton in Hin. injection Hin as -> ->.
      exists 0, 0. split_and!; [ lia | reflexivity | reflexivity ].
  - reflexivity.
  - exact Hfound.
  - exact Hmissing.
Defined.

End Samples.

(** * The further properties on the sample inputs *)

Section MoreSamples.

Local Abbreviation convert := (toCAF "identity" list_compound).

Lemma Color_unsupported_iff_witness :
  (length [PyStr "red"; PyStr "green"] <> 1 /\
   length [PyStr "red"; PyStr "green"] <> 3 /\
   length [PyStr "red"; PyStr "green"] <> 4) /\
  exists a k, Color_init sample_palette sample_default [PyStr "red"; PyStr "green"] ∅
              = Raise (ValueError (Unsupported_arguments a k)).
Proof.
  assert (Hlen : length [PyStr "red"; PyStr "green"] <> 1 /\
                 length [PyStr "red"; PyStr "green"] <> 3 /\
                 length [PyStr "red"; PyStr "green"] <> 4)
    by (simpl; lia).
  split; [ exact Hlen | ].
  apply (proj2 (Color_unsupported_iff sample_palette sample_default
                  [PyStr "red"; PyStr "green"] ∅) Hlen).
Defined.

Lemma Color_kwargs_only_alpha_witness :
  Color_init sample_palette sample_default [PyStr "red"] {[ "a" := PyFloat 0.5 ]}
  = Color_init sample_palette sample_default [PyStr "red"] ∅ /\
  Color_init sample_palette sample_default [PyFloat 0.25; PyFloat 0.5; PyFloat 0.75]
    {[ "a" := PyFloat 0.5; "b" := PyFloat 1 ]}
  = Color_init sample_palette sample_default [PyFloat 0.25; PyFloat 0.5; PyFloat 0.75]
      {[ "a" := PyFloat 0.5 ]}.
Proof.
  split.
  - apply (proj1 (Color_kwargs_only_alpha sample_palette sample_default
                    [PyStr "red"] {[ "a" := PyFloat 0.5 ]} ∅)).
    left. reflexivity.
  - apply (proj2 (Color_kwargs_only_alpha sample_palette sample_default
                    [PyFloat 0.25; PyFloat 0.5; PyFloat 0.75]
                    {[ "a" := PyFloat 0.5; "b" := PyFloat 1 ]}
                    {[ "a" := PyFloat 0.5 ]})).
    + reflexivity.
    + vm_compute. reflexivity.
Defined.


Lemma toCAF_part_instance_witness :
  convert tower 0 true 2 = Ok (0, tower_colored) /\
  traverse (tower 0) !! 1 = Some ("A", 1) /\
  (assy_label 1, part_label 1, "identity") ∈ doc_components tower_colored.
Proof.
  assert (Hrun : convert tower 0 true 2 = Ok (0, tower_colored))
    by (vm_compute; reflexivity).
  split_and!; [ exact Hrun | reflexivity | ].
  apply (toCAF_part_instance "identity" list_compound tower
           0 true 2 0 tower_colored 1 "A" 1 Hrun eq_refl).
Defined.

Lemma toCAF_coloredSTEP_own_color_witness :
  convert tower 0 true 2 = Ok (0, tower_colored) /\
  traverse (tower 0) !! 2 = Some ("R", 0) /\
  color (tower 0) = Some red /\
  doc_colors tower_colored !! part_label 2 = Some red_rgba /\
  doc_colors tower_colored !! assy_label 2 = None.
Proof.
  assert (Hrun : convert tower 0 true 2 = Ok (0, tower_colored))
    by (vm_compute; reflexivity).
  split_and!; [ exact Hrun | reflexivity | reflexivity | .. ];
    apply (toCAF_coloredSTEP_own_color "identity" list_compound tower
             0 2 0 tower_colored 2 "R" 0 red Hrun eq_refl eq_refl).
Defined.

(** The tower without colours is a convertible input as well. *)
Lemma plain_tower_convertible flag : convertible plain_tower 0 flag 2.
Proof.
  destruct (tower_convertible flag) as (Hrec & Hroot & Hno & _).
  split_and!; [ exact Hrec | exact Hroot | exact Hno | ].
  intros _ k v Hin.
  destruct (tower_reaches_root k v Hin) as (n & a & Hn & Ha & Hp).
  exists n, a. auto.
Qed.

Lemma toCAF_coloredSTEP_uncolored_witness :
  traverse (plain_tower 0) !! 0 = Some ("B", 2) /\
  uncolored_to_root plain_tower 2 2 /\
  2 <= 2 /\
  convertible plain_tower 0 true 2 /\
  inherit_color plain_tower 2 (color (plain_tower 2)) 2 = Ok None /\
  (doc_colors plain_tower_colored !! part_label 0 = None /\
   doc_colors plain_tower_colored !! assy_label 0 = None) /\
  (exists docu,
     convert plain_tower 0 true 2 = Ok (0, docu) /\
     doc_colors docu !! part_label 0 = None /\
     doc_colors docu !! assy_label 0 = None).
Proof.
  assert (Hrun : convert plain_tower 0 true 2 = Ok (0, plain_tower_colored))
    by (vm_compute; reflexivity).
  assert (Hunc : uncolored_to_root plain_tower 2 2).
  { split.
    - exists 0. split; reflexivity.
    - intros m b Hm Hb. reflexivity. }
  assert (Hfuel : 2 <= 2) by lia.
  destruct (toCAF_coloredSTEP_uncolored "identity" list_compound plain_tower
              0 2 0 "B" 2 2 eq_refl Hunc Hfuel)
    as (Hwalk & Hcolors & Hreturns).
  split_and!;
    [ reflexivity | exact Hunc | exact Hfuel
    | exact (plain_tower_convertible true) | exact Hwalk
    | apply (Hcolors 0 plain_tower_colored Hrun)
    | apply (Hcolors 0 plain_tower_colored Hrun)
    | exact (Hreturns (plain_tower_convertible true)) ].
Defined.

Lemma toCAF_colors_origin_witness :
  convert tower 0 true 2 = Ok (0, tower_colored) /\
  doc_colors tower_colored !! part_label 0 = Some red_rgba /\
  part_label 0 <> 0 /\
  exists i k v n a c,
    traverse (tower 0) !! i = Some (k, v) /\
    part_label 0 = colored_label true (part_label i) (assy_label i) /\
    nearest_colored tower v n a c /\
    red_rgba = Color_wrapped c /\
    (true = false -> n = 0).
Proof.
  assert (Hrun : convert tower 0 true 2 = Ok (0, tower_colored))
    by (vm_compute; reflexivity).
  assert (Hq : doc_colors tower_colored !! part_label 0 = Some red_rgba)
    by (vm_compute; reflexivity).
  split_and!; [ exact Hrun | exact Hq | .. ];
    apply (toCAF_colors_origin "identity" list_compound tower
             0 true 2 0 tower_colored (part_label 0) red_rgba Hrun Hq).
Defined.

Lemma toCAF_root_not_yielded_witness :
  (name (silent 0) ∉ (traverse (silent 0)).*1) /\
  children_recorded silent (traverse (silent 0)) /\
  convert silent 0 true 0 = Raise (KeyError "R").
Proof.
  assert (Hroot : name (silent 0) ∉ (traverse (silent 0)).*1).
  { simpl. apply not_elem_of_nil. }
  assert (Hrec : children_recorded silent (traverse (silent 0))).
  { intros i k v ch Hi. simpl in Hi. discriminate. }
  split_and!; [ exact Hroot | exact Hrec | ].
  apply (toCAF_root_not_yielded "identity" list_compound silent 0 true 0
           Hroot Hrec).
  intros _ k v Hin. simpl in Hin. apply elem_of_nil in Hin. destruct Hin.
Defined.

Lemma toCAF_returns_conditions_witness :
  convertible tower 0 true 2 /\
  (exists docu, convert tower 0 true 2 = Ok (0, docu)) /\
  children_recorded tower (traverse (tower 0)) /\
  name (tower 0) ∈ (traverse (tower 0)).*1 /\
  (true = true ->
   forall k v, (k, v) ∈ traverse (tower 0) -> stops_within tower 2 v).
Proof.
  pose proof (proj2 (toCAF_returns_conditions "identity" list_compound tower 0 true 2)
                (tower_convertible true)) as Hret.
  split_and!; [ exact (tower_convertible true) | exact Hret | .. ];
    apply (proj1 (toCAF_returns_conditions "identity" list_compound tower 0 true 2)
             Hret).
Defined.

Lemma toCAF_never_returns_witness :
  traverse (self_parent 0) !! 0 = Some ("A", 0) /\
  endless_uncolored self_parent 0 /\
  forall fuel top docu, convert self_parent 0 true fuel <> Ok (top, docu).
Proof.
  assert (Hend : endless_uncolored self_parent 0).
  { intros n. exists 0. split; [ | reflexivity ].
    induction n as [|n IH]; [ reflexivity | exact IH ]. }
  split_and!; [ reflexivity | exact Hend | ].
  apply (toCAF_never_returns "identity" list_compound self_parent 0 0 "A" 0
           eq_refl Hend).
Defined.

Lemma toCAF_child_last_entry_witness :
  convert twins 0 false 0 = Ok (0, twins_plain) /\
  traverse (twins 0) !! 2 = Some ("R", 0) /\
  1 ∈ children (twins 0) /\
  exists j v_j,
    j <= 2 /\
    traverse (twins 0) !! j = Some (name (twins 1), v_j) /\
    (forall j' k' v', j < j' -> j' <= 2 ->
       traverse (twins 0) !! j' = Some (k', v') -> k' <> name (twins 1)) /\
    (assy_label 2, assy_label j, Location_wrapped (loc (twins v_j)))
      ∈ doc_components twins_plain.
Proof.
  assert (Hrun : convert twins 0 false 0 = Ok (0, twins_plain))
    by (vm_compute; reflexivity).
  assert (Hch : 1 ∈ children (twins 0)) by (simpl; left).
  split_and!; [ exact Hrun | reflexivity | exact Hch | ].
  apply (toCAF_child_last_entry "identity" list_compound twins
           0 false 0 0 twins_plain 2 "R" 0 1 Hrun eq_refl Hch).
Defined.

(** The child the root of [twins] owns is the first "A", and the component
    wired below the root's assembly label is the second one. *)
Example toCAF_twins :
  (assy_label 2, assy_label 1, "at_second") ∈ doc_components twins_plain /\
  (assy_label 2, assy_label 0, "at_first") ∉ doc_components twins_plain.
Proof.
  split.
  - apply (bool_decide_unpack _). vm_compute. reflexivity.
  - apply (bool_decide_unpack _). vm_compute. reflexivity.
Qed.

Lemma toCAF_child_named_as_parent_witness :
  children_recorded namesakes (traverse (namesakes 0)) /\
  traverse (namesakes 0) !! 1 = Some (name (namesakes 0), 0) /\
  (name (namesakes 0) ∉ (drop 2 (traverse (namesakes 0))).*1) /\
  1 ∈ children (namesakes 0) /\
  name (namesakes 1) = name (namesakes 0) /\
  convert namesakes 0 false 0 = Crash.
Proof.
  assert (Hrec : children_recorded namesakes (traverse (namesakes 0))).
  { intros i k v ch Hi Hch.
    destruct i as [|[|i]]; simpl in Hi; [ | | discriminate ];
      injection Hi as <- <-; simpl in Hch.
    - apply elem_of_nil in Hch. destruct Hch.
    - apply list_elem_of_singleton in Hch. subst ch. simpl. left. }
  assert (Hlast : name (namesakes 0) ∉ (drop 2 (traverse (namesakes 0))).*1).
  { simpl. apply not_elem_of_nil. }
  assert (Hch : 1 ∈ children (namesakes 0)) by (simpl; left).
  split_and!; [ exact Hrec | reflexivity | exact Hlast | exact Hch | reflexivity | ].
  apply (toCAF_child_named_as_parent "identity" list_compound namesakes
           0 false 0 1 0 1 Hrec); [ discriminate | reflexivity | exact Hlast
                                  | exact Hch | reflexivity ].
Defined.

Lemma toCAF_component_count_witness :
  convert tower 0 true 2 = Ok (0, tower_colored) /\
  length (doc_components tower_colored) = 3 + 2 + 1.
Proof.
  assert (Hrun : convert tower 0 true 2 = Ok (0, tower_colored))
    by (vm_compute; reflexivity).
  split; [ exact Hrun | ].
  apply (toCAF_component_count "identity" list_compound tower
           0 true 2 0 tower_colored Hrun).
Defined.

Lemma toCAF_document_well_formed_witness :
  convert tower 0 true 2 = Ok (0, tower_colored) /\
  doc_format tower_colored = "XmlOcaf" /\
  doc_updated tower_colored = true /\
  (forall l, is_Some (doc_names tower_colored !! l) <-> l < doc_labels tower_colored) /\
  (forall l, is_Some (doc_shapes tower_colored !! l)
             \/ is_Some (doc_colors tower_colored !! l) ->
     l < doc_labels tower_colored).
Proof.
  assert (Hrun : convert tower 0 true 2 = Ok (0, tower_colored))
    by (vm_compute; reflexivity).
  split; [ exact Hrun | ].
  apply (toCAF_document_well_formed "identity" list_compound tower
           0 true 2 0 tower_colored Hrun).
Defined.

Lemma toCAF_component_labels_witness :
  convert tower 0 true 2 = Ok (0, tower_colored) /\
  exists comps last_c p,
    doc_components tower_colored = comps ++ [(0, last_c, p)] /\
    (exists i, i < 3 /\ last_c = assy_label i) /\
    component_labels 3 comps.
Proof.
  assert (Hrun : convert tower 0 true 2 = Ok (0, tower_colored))
    by (vm_compute; reflexivity).
  split; [ exact Hrun | ].
  apply (toCAF_component_labels "identity" list_compound tower
           0 true 2 0 tower_colored Hrun).
Defined.

Lemma toCAF_flag_only_colors_witness :
  convert tower 0 true 2 = Ok (0, tower_colored) /\
  exists docu',
    convert tower 0 false 0 = Ok (0, docu') /\
    same_but_colors tower_colored docu'.
Proof.
  assert (Hrun : convert tower 0 true 2 = Ok (0, tower_colored))
    by (vm_compute; reflexivity).
  split; [ exact Hrun | ].
  apply (toCAF_flag_only_colors "identity" list_compound tower
           0 2 0 0 tower_colored Hrun).
Defined.

Lemma toCAF_plain_ignores_parents_witness :
  (forall r, same_but_parent (tower r) (orphaned_tower r)) /\
  convert tower 0 false 0 = convert orphaned_tower 0 false 7 /\
  convert tower 0 false 0 <> Diverge.
Proof.
  assert (Hagree : forall r, same_but_parent (tower r) (orphaned_tower r)).
  { intros r. unfold same_but_parent, orphaned_tower. simpl.
    split_and!; reflexivity. }
  split; [ exact Hagree | ].
  apply (toCAF_plain_ignores_parents "identity" list_compound tower
           orphaned_tower Hagree 0 0 7).
Defined.

End MoreSamples.
